(** * wolo: change detection, task lifecycle and log store

    A shallow embedding of [wolo/task.py] and [wolo/log.py]
    ([wolo/workflow.py], [wolo/parameters.py] and [wolo/helper.py] are not
    among the sources).

    Python values are embedded as a tree type ([pyval]); dictionaries with
    string keys are finite maps ([gmap string _]); the objects that the code
    mutates (the task instance, the record passed to [_run], the log store)
    are threaded through explicitly as a state; exceptions are results. *)

From stdpp Require Import gmap strings list fin_maps.
From Stdlib Require Import ZArith.

Set Default Proof Using "Type".
Open Scope Z_scope.

(** ** Python values *)

(** The values that occur as parameter values, snapshots and record fields.
    Numbers are integers (the modification time of a file is a number; its
    floating point representation is not modelled). The keys of a
    dictionary are strings, as those of keyword arguments, of attribute
    dictionaries and of everything that [json.load] builds are; a dictionary
    with a key of another type is not a value of this model, and nothing
    below speaks about one. *)
#[warnings="-register-all"] Inductive pyval : Type :=
  | VNone
  | VBool (b : bool)
  | VInt (n : Z)
  | VStr (s : string)
  | VList (xs : list pyval)
  | VTuple (xs : list pyval)
  | VDict (d : gmap string pyval).

Fixpoint pyval_size (v : pyval) : nat :=
  match v with
  | VList xs | VTuple xs => S (foldr (λ x acc, pyval_size x + acc)%nat 0%nat xs)
  | VDict d => S (map_fold (λ _ x acc, pyval_size x + acc)%nat 0%nat d)
  | _ => 1%nat
  end.

(** Python's [==] on these values: [bool] is a subclass of [int], so
    [True == 1]; a list never equals a tuple; dictionaries are equal when
    they have the same keys with equal values, in any order. *)
Fixpoint py_eq (a b : pyval) {struct a} : bool :=
  match a, b with
  | VNone, VNone => true
  | VBool x, VBool y => bool_decide (x = y)
  | VBool x, VInt n | VInt n, VBool x => bool_decide (Z.b2z x = n)
  | VInt m, VInt n => bool_decide (m = n)
  | VStr s, VStr t => bool_decide (s = t)
  | VList xs, VList ys | VTuple xs, VTuple ys =>
      (fix seq_eq (xs ys : list pyval) {struct xs} : bool :=
         match xs, ys with
         | [], [] => true
         | x :: xs', y :: ys' => py_eq x y && seq_eq xs' ys'
         | _, _ => false
         end) xs ys
  | VDict d, VDict e =>
      bool_decide (size d = size e) &&
      map_fold (λ k v acc, acc && from_option (py_eq v) false (e !! k)) true d
  | _, _ => false
  end.

(** [a != b] *)
Definition py_ne (a b : pyval) : bool := negb (py_eq a b).

(** [x is True] *)
Definition is_True (v : pyval) : bool :=
  match v with VBool true => true | _ => false end.

(** Truth value of an object, as [bool(x)] computes it. *)
Definition truthy (v : pyval) : bool :=
  match v with
  | VNone => false
  | VBool b => b
  | VInt n => negb (n =? 0)
  | VStr s => negb (String.eqb s "")
  | VList xs | VTuple xs => negb (bool_decide (xs = []))
  | VDict d => negb (bool_decide (size d = 0%nat))
  end.

(** [str(b)] for a boolean, as [format] and [print] show it. *)
Definition str_bool (b : bool) : string := if b then "True" else "False".

(** ** Exceptions and results *)

Inductive exn : Type :=
  | TypeError
  | Warning_ (name_list : list string)   (* [raise Warning(...)] of [_process] *)
  | UserError (what : string).           (* anything a user hook raises *)

Inductive result (A : Type) : Type :=
  | Ok (a : A)
  | Raise (e : exn).
Arguments Ok {A} a.
Arguments Raise {A} e.


(** The exceptions of subscripting and attribute access, which the views of
    [wolo/log.py] can raise, next to the ones above. *)
Inductive exception : Type :=
  | KeyError (key : string)
  | AttributeError
  | Builtin (e : exn).

Inductive outcome (A : Type) : Type :=
  | Returns (a : A)
  | Raises (e : exception).
Arguments Returns {A} a.
Arguments Raises {A} e.

(** [v[key]] for a string [key]: a dictionary gives the value or a
    [KeyError]; sequences and strings want integer indices, and [None] and
    numbers cannot be subscripted. *)
Definition subscript (v : pyval) (key : string) : outcome pyval :=
  match v with
  | VDict d =>
      match d !! key with
      | Some x => Returns x
      | None => Raises (KeyError key)
      end
  | _ => Raises (Builtin TypeError)
  end.

(** Iterating over a value, as [all(x)] or a [for] loop does: sequences give
    their items, a string its characters, a dictionary its keys; [None] and
    numbers are not iterable. *)
Definition py_iter (v : pyval) : result (list pyval) :=
  match v with
  | VList xs | VTuple xs => Ok xs
  | VStr s => Ok ((λ c, VStr (String c "")) <$> String.list_ascii_of_string s)
  | VDict d => Ok ((λ kv, VStr kv.1) <$> map_to_list d)
  | VNone | VBool _ | VInt _ => Raise TypeError
  end.

(** [all(x)] *)
Definition py_all (v : pyval) : result bool :=
  match py_iter v with
  | Ok xs => Ok (forallb truthy xs)
  | Raise e => Raise e
  end.

(** ** JSON documents, [json.dump] and [json.load] *)

#[warnings="-register-all"] Inductive json : Type :=
  | JNull
  | JBool (b : bool)
  | JNum (n : Z)
  | JStr (s : string)
  | JArr (xs : list json)
  | JObj (m : gmap string json).

(** What [json.dump] writes for a value: lists and tuples both become
    arrays. ([sort_keys] orders the text of an object, which a map does not
    record. The keys are strings already; [json.dump] would turn a number,
    a boolean or [None] used as a key into a string, which is a second way,
    next to tuples, in which a value of Python can come back changed, and
    one that the values of this model do not have.) *)
Fixpoint json_dump (v : pyval) : json :=
  match v with
  | VNone => JNull
  | VBool b => JBool b
  | VInt n => JNum n
  | VStr s => JStr s
  | VList xs | VTuple xs => JArr (json_dump <$> xs)
  | VDict d => JObj (json_dump <$> d)
  end.

(** What [json.load] builds from a document: arrays become lists. *)
Fixpoint json_load (j : json) : pyval :=
  match j with
  | JNull => VNone
  | JBool b => VBool b
  | JNum n => VInt n
  | JStr s => VStr s
  | JArr xs => VList (json_load <$> xs)
  | JObj m => VDict (json_load <$> m)
  end.

Fixpoint json_size (j : json) : nat :=
  match j with
  | JArr xs => S (foldr (λ x acc, json_size x + acc)%nat 0%nat xs)
  | JObj m => S (map_fold (λ _ x acc, json_size x + acc)%nat 0%nat m)
  | _ => 1%nat
  end.

(** The serialized shape of a value: what comes back after it was persisted. *)
Definition persisted (v : pyval) : pyval := json_load (json_dump v).

(** Values that hold no tuple, at any depth. *)
Fixpoint tuple_free (v : pyval) : bool :=
  match v with
  | VList xs => forallb tuple_free xs
  | VTuple _ => false
  | VDict d => map_fold (λ _ x acc, acc && tuple_free x) true d
  | _ => true
  end.

(** Values that hold no tuple below their top level. *)
Definition shallow (v : pyval) : bool :=
  match v with
  | VTuple xs => forallb tuple_free xs
  | _ => tuple_free v
  end.

(** ** Parameters ([Parameter] of [wolo/parameters.py]) *)

Module Param.
Section World.
Context {World : Type}.

(** Modelled from the spec: [wolo/parameters.py] is not among the sources.
    A parameter has a name, a value and a snapshot ([_log_value]);
    [refresh] is the variant's way of computing the snapshot from the
    current state of the world (path and modification time for a file, a
    digest for a source), which [_update] stores. *)
Record t : Type := mk {
  name : string;
  value : pyval;
  _log_value : pyval;
  refresh : World → pyval
}.

(** Modelled from the spec: [Parameter(name, value)], the plain variant,
    whose snapshot is its value. *)
Definition plain (name : string) (value : pyval) : t :=
  mk name value value (λ _, value).

(** Modelled from the spec: [para._update()], the operation that refreshes
    the snapshot from the current state. *)
Definition _update (w : World) (para : t) : t :=
  mk (name para) (value para) (refresh para w) (refresh para).
End World.
Arguments t : clear implicits.
End Param.

(** ** Log records *)

Module TaskLog.
Record t : Type := mk {
  index : pyval;
  task_class : pyval;
  inputs : gmap string pyval;
  outputs : gmap string pyval;
  last_run_success : pyval;
  info : gmap string pyval
}.

(** [TaskLog(index, task_class)]: the other arguments at their defaults. *)
Definition new (index task_class : pyval) : t :=
  mk index task_class ∅ ∅ VNone ∅.

(** [self.__dict__], the attributes of the record; [dict(x)] gives the
    same mapping through [__iter__]. *)
Definition __dict__ (x : t) : gmap string pyval :=
  <["index" := index x]> (
  <["task_class" := task_class x]> (
  <["inputs" := VDict (inputs x)]> (
  <["outputs" := VDict (outputs x)]> (
  <["last_run_success" := last_run_success x]> (
  <["info" := VDict (info x)]> ∅))))).

(** [__eq__]: the attribute dictionaries are equal. *)
Definition __eq__ (self other : t) : bool :=
  py_eq (VDict (__dict__ self)) (VDict (__dict__ other)).

Definition fields : gset string :=
  {[ "index"; "task_class"; "inputs"; "outputs"; "last_run_success"; "info" ]}.

(** The mapping-valued fields of a record are dictionaries; a stored record
    with anything else there is outside the model and is rejected. *)
Definition mapping (v : option pyval) : result (gmap string pyval) :=
  match v with
  | None => Ok ∅
  | Some (VDict d) => Ok d
  | Some _ => Raise TypeError
  end.

(** [_from_dict]: the class called with the dictionary as keyword
    arguments. Keyword arguments that [__init__] does not have, or a
    missing [index] or [task_class], are a [TypeError]. *)
Definition _from_dict (dict : pyval) : result t :=
  match dict with
  | VDict kw =>
      if negb (bool_decide (dom kw ⊆ fields)) then Raise TypeError else
      match kw !! "index", kw !! "task_class" with
      | Some i, Some c =>
          match mapping (kw !! "inputs"), mapping (kw !! "outputs"),
                mapping (kw !! "info") with
          | Ok ins, Ok outs, Ok inf =>
              Ok (mk i c ins outs (default VNone (kw !! "last_run_success")) inf)
          | _, _, _ => Raise TypeError
          end
      | _, _ => Raise TypeError
      end
  | _ => Raise TypeError
  end.

(** [__ne__] *)
Definition __ne__ (self other : t) : bool := negb (__eq__ self other).

(** [__getitem__]: the dictionary of the selected attributes, built key by
    key; an attribute that the record does not have is a [KeyError]. *)
Definition __getitem__ (self : t) (selection : list string)
    : outcome (gmap string pyval) :=
  foldl (λ acc key,
    match acc with
    | Raises e => Raises e
    | Returns d =>
        match __dict__ self !! key with
        | Some v => Returns (<[key := v]> d)
        | None => Raises (KeyError key)
        end
    end) (Returns ∅) selection.

Section helper.
(** [helper.pretty_print_index(index, style)] is not among the sources:
    it is a parameter here, one that may raise. *)
Variable pretty_print_index : pyval → string → result string.

(** [_to_dict]: the printed index and the attributes. *)
Definition _to_dict (self : t) : result (string * gmap string pyval) :=
  match pretty_print_index (index self) "underscore" with
  | Ok i => Ok (i, __dict__ self)
  | Raise e => Raise e
  end.
End helper.
End TaskLog.

(** ** Tasks *)

Module Task.
Section World.
(** Everything the hooks of a task can read and change: the file system
    and whatever the user keeps on the task. *)
Context {World : Type}.

Local Abbreviation parameter := (Param.t World).

Inductive hook : Type := Before | Input | Output | Action | Success | After.

(** What the after-hook hands back: [None], or a list of parameters. *)
Inductive returned : Type :=
  | RNone
  | RList (ps : list parameter).

(** The methods a task class defines, for one instance (they are closed
    over [self.args] and [self.kwargs]); [success] and [after] also see
    [self.report]. Each may change the world and may raise. *)
Record Hooks : Type := {
  __name__ : string;
  before : World → result unit * World;
  input : World → result (list parameter) * World;
  output : World → result (list parameter) * World;
  action : World → result pyval * World;
  success : pyval → World → result pyval * World;
  after : pyval → World → result returned * World
}.

(** [Task.before] and [Task.after], which a task inherits unless it
    defines its own: both are [pass]. *)
Definition default_before : World → result unit * World :=
  λ w, (Ok (), w).
Definition default_after : pyval → World → result returned * World :=
  λ _ w, (Ok RNone, w).

(** A task instance. *)
Record t : Type := mk {
  hooks : Hooks;
  args : list pyval;
  kwargs : gmap string pyval;
  _name : parameter;
  _args : parameter;
  _kwargs : parameter;
  inputs : list parameter;
  outputs : list parameter;
  report : option pyval
}.

Definition set_inputs (ps : list parameter) (self : t) : t :=
  mk (hooks self) (args self) (kwargs self) (_name self) (_args self)
     (_kwargs self) ps (outputs self) (report self).
Definition set_outputs (ps : list parameter) (self : t) : t :=
  mk (hooks self) (args self) (kwargs self) (_name self) (_args self)
     (_kwargs self) (inputs self) ps (report self).
Definition set_report (r : pyval) (self : t) : t :=
  mk (hooks self) (args self) (kwargs self) (_name self) (_args self)
     (_kwargs self) (inputs self) (outputs self) (Some r).

(** Modelled from the spec: [helper.convert_dict_to_namedtuple] is not
    among the sources. The parameter set that it builds from the
    dictionary [{para.name: para for para in para_list}] is kept as the
    ordered list of its parameters, which is what iterating over it
    gives. *)
Definition convert_dict_to_namedtuple (paras : list parameter)
    : list parameter :=
  paras.

(** [_process]. The list is iterated, so [None] is a [TypeError]; names
    must be distinct. *)
Definition _process (para_list : returned) : result (list parameter) :=
  match para_list with
  | RNone => Raise TypeError
  | RList ps =>
      let name_list := Param.name <$> ps in
      if negb (length (remove_dups name_list) =? length name_list)%nat
      then Raise (Warning_ name_list)
      else Ok (convert_dict_to_namedtuple ps)
  end.

(** [_check] *)
Definition _check (para_dic : list parameter) (old_values : gmap string pyval) : bool :=
  foldl (λ changed para,
    match old_values !! Param.name para with
    | Some old_value =>
        let log_value :=
          match Param._log_value para with
          | VTuple xs => VList xs
          | v => v
          end in
        if py_ne log_value old_value then true else changed
    | None => true
    end) false para_dic.

(** [{para.name: para._log_value for para in para_dic}] *)
Definition snapshot (para_dic : list parameter) : gmap string pyval :=
  foldl (λ d para, <[Param.name para := Param._log_value para]> d)
        ∅ para_dic.

(** [_rebuild]: the parameters are updated in place, so the updated
    parameters are returned next to the mapping. *)
Definition _rebuild (w : World) (para_dic : list parameter)
    : list parameter * gmap string pyval :=
  let para_dic' := Param._update w <$> para_dic in
  (para_dic', snapshot para_dic').

(** [__init__] *)
Definition __init__ (h : Hooks) (args : list pyval) (kwargs : gmap string pyval)
    (w : World) : result t * World :=
  let _name := Param.plain "name_" (VStr (__name__ h)) in
  let _args := Param.plain "args_" (VTuple args) in
  let _kwargs := Param.plain "kwargs_" (VDict kwargs) in
  match before h w with
  | (Raise e, w) => (Raise e, w)
  | (Ok _, w) =>
  match input h w with
  | (Raise e, w) => (Raise e, w)
  | (Ok ins, w) =>
  match _process (RList (ins ++ [_name; _args; _kwargs])) with
  | Raise e => (Raise e, w)
  | Ok inputs =>
  match output h w with
  | (Raise e, w) => (Raise e, w)
  | (Ok outs, w) =>
  match _process (RList outs) with
  | Raise e => (Raise e, w)
  | Ok outputs =>
      (Ok (mk h args kwargs _name _args _kwargs inputs outputs None), w)
  end end end end end.

(** *** Running a task

    The state that [_run] and [_rerun] work on: the world, the hooks
    called so far, what was printed, the task instance and the record
    object that [log] refers to. An exception leaves the state as it was
    when it was raised. *)
Record state : Type := mkstate {
  world : World;
  calls : list hook;
  stdout : list string;
  self : t;
  log : TaskLog.t
}.

Definition M (A : Type) : Type := state → result A * state.

Definition ret {A} (a : A) : M A := λ s, (Ok a, s).
Definition bind {A B} (m : M A) (k : A → M B) : M B :=
  λ s, match m s with
       | (Ok a, s') => k a s'
       | (Raise e, s') => (Raise e, s')
       end.
Definition lift {A} (r : result A) : M A := λ s, (r, s).
Definition get : M state := λ s, (Ok s, s).
Definition modify (f : state → state) : M unit := λ s, (Ok (), f s).

Definition with_self (f : t → t) (s : state) : state :=
  mkstate (world s) (calls s) (stdout s) (f (self s)) (log s).
Definition with_log (f : TaskLog.t → TaskLog.t) (s : state) : state :=
  mkstate (world s) (calls s) (stdout s) (self s) (f (log s)).

(** Calling a hook: the call is recorded, the hook acts on the world. *)
Definition call {A} (k : hook) (f : World → result A * World) : M A :=
  λ s, let '(r, w) := f (world s) in
       (r, mkstate w (calls s ++ [k]) (stdout s) (self s) (log s)).

Definition print (line : string) : M unit :=
  modify (λ s, mkstate (world s) (calls s) (stdout s ++ [line]) (self s) (log s)).

Definition set_log_info (d : gmap string pyval) (l : TaskLog.t) : TaskLog.t :=
  TaskLog.mk (TaskLog.index l) (TaskLog.task_class l) (TaskLog.inputs l)
    (TaskLog.outputs l) (TaskLog.last_run_success l) d.
Definition set_log_inputs (d : gmap string pyval) (l : TaskLog.t) : TaskLog.t :=
  TaskLog.mk (TaskLog.index l) (TaskLog.task_class l) d
    (TaskLog.outputs l) (TaskLog.last_run_success l) (TaskLog.info l).
Definition set_log_outputs (d : gmap string pyval) (l : TaskLog.t) : TaskLog.t :=
  TaskLog.mk (TaskLog.index l) (TaskLog.task_class l) (TaskLog.inputs l)
    d (TaskLog.last_run_success l) (TaskLog.info l).
Definition set_log_last_run_success (v : pyval) (l : TaskLog.t) : TaskLog.t :=
  TaskLog.mk (TaskLog.index l) (TaskLog.task_class l) (TaskLog.inputs l)
    (TaskLog.outputs l) v (TaskLog.info l).

Notation "x <~ m ;; k" := (bind m (λ x, k))
  (at level 100, m at next level, right associativity).
Notation "m ;;; k" := (bind m (λ _, k))
  (at level 100, right associativity).

(** [_rerun] *)
Definition _rerun : M TaskLog.t :=
  print "rerunning Task..." ;;;
  s <~ get ;;
  r <~ call Action (action (hooks (self s))) ;;
  modify (with_self (set_report r)) ;;;
  results <~ call Success (success (hooks (self s)) r) ;;
  success <~ lift (py_all results) ;;
  returned <~ call After (after (hooks (self s)) r) ;;
  info_paras <~ lift (_process returned) ;;
  s <~ get ;;
  modify (with_log (set_log_info (_rebuild (world s) info_paras).2)) ;;;
  (if success then
     s <~ get ;;
     let '(ins, d) := _rebuild (world s) (inputs (self s)) in
     modify (with_self (set_inputs ins)) ;;;
     modify (with_log (set_log_inputs d)) ;;;
     s <~ get ;;
     let '(outs, d) := _rebuild (world s) (outputs (self s)) in
     modify (with_self (set_outputs outs)) ;;;
     modify (with_log (set_log_outputs d)) ;;;
     modify (with_log (set_log_last_run_success (VBool true)))
   else
     modify (with_log (set_log_last_run_success (VBool false)))) ;;;
  print (str_bool success) ;;;
  s <~ get ;;
  ret (log s).

(** [_run], against the record that [log] refers to in the state. *)
Definition _run : M TaskLog.t :=
  s <~ get ;;
  let inputs_changed := _check (inputs (self s)) (TaskLog.inputs (log s)) in
  let outputs_changed := _check (outputs (self s)) (TaskLog.outputs (log s)) in
  print ("inputs changed: " +:+ str_bool inputs_changed) ;;;
  print ("outputs changed: " +:+ str_bool outputs_changed) ;;;
  (if inputs_changed || outputs_changed
        || negb (is_True (TaskLog.last_run_success (log s)))
   then _rerun
   else s <~ get ;; ret (log s)).

(** [task._run(log)] in world [w], with nothing called or printed yet. *)
Definition run (task : t) (record : TaskLog.t) (w : World)
    : result TaskLog.t * state :=
  _run (mkstate w [] [] task record).
End World.
Arguments t : clear implicits.
Arguments Hooks : clear implicits.
Arguments state : clear implicits.
Arguments returned : clear implicits.
End Task.

(** ** The log store *)

Module Log.
(** A log: leaves, and sequences of nodes. [isinstance(i, (list, tuple))]
    is what tells a sequence from a leaf: a sequence stands for a list or
    for a tuple of nodes (the walks below do not tell the two apart, and
    what they build are lists), and a leaf for a value that is neither. *)
#[warnings="-register-all"] Inductive rose (A : Type) : Type :=
  | Leaf (a : A)
  | Seq (xs : list (rose A)).
Arguments Leaf {A} a.
Arguments Seq {A} xs.

(** [list(f(i) for i in L)], where [f] may raise. *)
Definition collect {A B} (f : A → result B) : list A → result (list B) :=
  fix go L :=
    match L with
    | [] => Ok []
    | i :: L' =>
        match f i with
        | Raise e => Raise e
        | Ok y =>
            match go L' with
            | Raise e => Raise e
            | Ok ys => Ok (y :: ys)
            end
        end
    end.

(** One step of [_recursive_iterate_log]: what is yielded for item [i].
    What [func] gives for a leaf is a leaf of the result here, whatever it
    is; as a Python value it reads as a leaf again when it is neither a
    list nor a tuple (a record, a dictionary, a label). *)
Fixpoint iterate_item {A B} (func : A → result B) (i : rose A) : result (rose B) :=
  match i with
  | Seq xs =>
      match collect (iterate_item func) xs with
      | Ok ys => Ok (Seq ys)
      | Raise e => Raise e
      end
  | Leaf a =>
      match func a with
      | Ok b => Ok (Leaf b)
      | Raise e => Raise e
      end
  end.

(** [list(_recursive_iterate_log(L, func))] *)
Definition _recursive_iterate_log {A B} (L : list (rose A)) (func : A → result B)
    : result (list (rose B)) :=
  collect (iterate_item func) L.

(** A Python value seen as a node: lists and tuples are sequences. *)
Fixpoint node_of (v : pyval) : rose pyval :=
  match v with
  | VList xs | VTuple xs => Seq (node_of <$> xs)
  | _ => Leaf v
  end.

(** The nested lists that [_recursive_iterate_log] yields for a node. *)
Fixpoint listed (i : rose pyval) : pyval :=
  match i with
  | Leaf v => v
  | Seq xs => VList (listed <$> xs)
  end.

(** A [Log] object and the file at its [_log_path]: [file] is the document
    in the file, or [None] when there is no such file; [_log] is the
    attribute, [None] until it is set. *)
Record t : Type := mk {
  file : option json;
  _log : option (list (rose TaskLog.t))
}.

(** [Log(name)], for a log path with the given content. *)
Definition new (file : option json) : t := mk file None.

(** [_load] *)
Definition _load (self : t) : result (list (rose TaskLog.t)) :=
  match file self with
  | Some doc =>
      let temp_log := json_load doc in
      match py_iter temp_log with
      | Ok items => _recursive_iterate_log (node_of <$> items) TaskLog._from_dict
      | Raise e => Raise e
      end
  | None => Ok []
  end.

(** The [log] property: [not self._log] holds for [None] and for the empty
    list, and then the log is loaded. *)
Definition log (self : t) : result (list (rose TaskLog.t)) * t :=
  match _log self with
  | Some (i :: L) => (Ok (i :: L), self)
  | Some [] | None =>
      match _load self with
      | Ok L => (Ok L, mk (file self) (Some L))
      | Raise e => (Raise e, self)
      end
  end.

(** [_write] *)
Definition _write (self : t) : result unit * t :=
  match log self with
  | (Ok L, self) =>
      match _recursive_iterate_log L (λ x, Ok (VDict (TaskLog.__dict__ x))) with
      | Ok save_log =>
          (Ok (), mk (Some (json_dump (VList (listed <$> save_log)))) (_log self))
      | Raise e => (Raise e, self)
      end
  | (Raise e, self) => (Raise e, self)
  end.

(** [_set_log] *)
Definition _set_log (new_log : list (rose TaskLog.t)) (self : t) : result unit * t :=
  _write (mk (file self) (Some new_log)).

(** Equality of logs as Python computes it: lists are compared item by
    item, records with [TaskLog.__eq__]. *)
Fixpoint node_eq (a b : rose TaskLog.t) : bool :=
  match a, b with
  | Leaf x, Leaf y => TaskLog.__eq__ x y
  | Seq xs, Seq ys =>
      (fix seq_eq (xs ys : list (rose TaskLog.t)) {struct xs} : bool :=
         match xs, ys with
         | [], [] => true
         | x :: xs', y :: ys' => node_eq x y && seq_eq xs' ys'
         | _, _ => false
         end) xs ys
  | _, _ => false
  end.
Definition log_eq (a b : list (rose TaskLog.t)) : bool :=
  node_eq (Seq a) (Seq b).

(** [simple_tree]: the log with [formatter] applied to its records. *)
Definition simple_tree {B} (formatter : TaskLog.t → result B) (self : t)
    : result (list (rose B)) * t :=
  match log self with
  | (Ok L, self) => (_recursive_iterate_log L formatter, self)
  | (Raise e, self) => (Raise e, self)
  end.

(** The default formatter of [simple_tree], [lambda x: x.task_class]. *)
Definition task_class_formatter (x : TaskLog.t) : result pyval :=
  Ok (TaskLog.task_class x).
End Log.

(** ** Flat views *)

Module FlatView.
Section helper.
Variable pretty_print_index : pyval → string → result string.

(** What [_flatten_log] yields for the item [i]: the pair of a record, or
    what it yields for the items of a sequence. *)
Fixpoint flatten_item (i : Log.rose TaskLog.t)
    : result (list (string * gmap string pyval)) :=
  match i with
  | Log.Leaf r =>
      match TaskLog._to_dict pretty_print_index r with
      | Ok entry => Ok [entry]
      | Raise e => Raise e
      end
  | Log.Seq xs =>
      match Log.collect flatten_item xs with
      | Ok pairs => Ok (mjoin pairs)
      | Raise e => Raise e
      end
  end.

(** [list(_flatten_log(L))] *)
Definition _flatten_log (L : list (Log.rose TaskLog.t))
    : result (list (string * gmap string pyval)) :=
  match Log.collect flatten_item L with
  | Ok pairs => Ok (mjoin pairs)
  | Raise e => Raise e
  end.
End helper.

(** [dict(pairs)] for the pairs of [_flatten_log]: a table from printed
    indices to rows; a later entry replaces an earlier one with the same
    key. *)
Definition table (pairs : list (string * gmap string pyval)) : gmap string pyval :=
  foldl (λ d entry, <[entry.1 := VDict entry.2]> d) ∅ pairs.

(** A view: its [log] and the [_initial] data it was derived from. *)
Record t : Type := mk {
  log : pyval;
  _initial : pyval
}.

(** [FlatView(log, initial=initial, flatten=False)]: [_initial] is the
    given one unless that is empty or [None], and then it is [log]. *)
Definition make (log initial : pyval) : t :=
  mk log (if negb (truthy initial) then log else initial).

(** [FlatView(log)]: the flattened log, which is also the initial data. *)
Definition flattened (pretty_print_index : pyval → string → result string)
    (log : list (Log.rose TaskLog.t)) : result t :=
  match _flatten_log pretty_print_index log with
  | Ok pairs => Ok (make (VDict (table pairs)) VNone)
  | Raise e => Raise e
  end.

(** [__getitem__]: the view of [self.log[selection]] over the same initial
    data. *)
Definition __getitem__ (self : t) (selection : string) : outcome t :=
  match subscript (log self) selection with
  | Returns new_log => Returns (make new_log (_initial self))
  | Raises e => Raises e
  end.

(** [{in_key: val[in_key] for in_key in selection}] for one row; [None]
    when a subscript raises. Without names nothing is subscripted. *)
Definition select (names : list string) (val : pyval) : option (gmap string pyval) :=
  foldl (λ acc in_key,
    match acc with
    | None => None
    | Some row =>
        match subscript val in_key with
        | Returns x => Some (<[in_key := x]> row)
        | Raises _ => None
        end
    end) (Some ∅) names.

Section cols.
(** [helper.convert_return] is not among the sources: it is a parameter
    here, which gives the column names of a selection or raises. *)
Variable convert_return : pyval → result (list string).

(** [cols]: every row of the initial data cut down to the selected
    columns. [None] stands for an exception: that of [convert_return],
    the [AttributeError] of initial data without [items], or the
    [KeyError] or [TypeError] of the first row, in the order of the
    dictionary, where a subscript fails. *)
Definition cols (selection : pyval) (self : t) : option t :=
  match convert_return selection with
  | Raise _ => None
  | Ok names =>
      match _initial self with
      | VDict rows =>
          if bool_decide (map_Forall (λ _ val, is_Some (select names val)) rows)
          then Some (make (VDict (omap (λ val, VDict <$> select names val) rows))
                          (_initial self))
          else None
      | _ => None
      end
  end.
End cols.
End FlatView.

(** ** A log object with its flattened view *)

Module LogObject.
(** A [Log] object with its [_flattened] attribute, [None] until [flat] is
    first read. *)
Record t : Type := mk {
  store : Log.t;
  _flattened : option FlatView.t
}.

(** [Log(name)] *)
Definition new (file : option json) : t := mk (Log.new file) None.

(** [_set_log]: the log is set and written; [_flattened] is left alone. *)
Definition _set_log (new_log : list (Log.rose TaskLog.t)) (self : t)
    : result unit * t :=
  let '(r, st) := Log._set_log new_log (store self) in
  (r, mk st (_flattened self)).

(** The [flat] property. A [FlatView] object counts as true, so the view
    is built on the first access only. *)
Definition flat (pretty_print_index : pyval → string → result string)
    (self : t) : result FlatView.t * t :=
  match _flattened self with
  | Some view => (Ok view, self)
  | None =>
      match Log.log (store self) with
      | (Raise e, st) => (Raise e, mk st None)
      | (Ok L, st) =>
          match FlatView.flattened pretty_print_index L with
          | Ok view => (Ok view, mk st (Some view))
          | Raise e => (Raise e, mk st None)
          end
      end
  end.
End LogObject.

(** ** Vocabulary of the properties *)



(** The comparison [_check] makes for one parameter. *)
Definition differs {World} (p : Param.t World) (old : gmap string pyval) : bool :=
  match old !! Param.name p with
  | Some old_value =>
      py_ne (match Param._log_value p with VTuple xs => VList xs | v => v end)
            old_value
  | None => true
  end.

(** The mapping [d] holds, under the name of each parameter of [ps], the
    snapshot taken in world [w], and nothing else. *)
Definition refreshed {World} (w : World) (ps : list (Param.t World))
    (d : gmap string pyval) : Prop :=
  (∀ p, p ∈ ps → d !! Param.name p = Some (Param.refresh p w)) ∧
  (∀ k, is_Some (d !! k) → k ∈ Param.name <$> ps).

(** The names of the three provenance parameters. *)
Definition reserved : list string := ["name_"; "args_"; "kwargs_"].

(** A record whose fields hold no tuple. *)
Definition record_tuple_free (r : TaskLog.t) : bool :=
  tuple_free (TaskLog.index r) && tuple_free (TaskLog.task_class r)
  && tuple_free (VDict (TaskLog.inputs r))
  && tuple_free (VDict (TaskLog.outputs r))
  && tuple_free (TaskLog.last_run_success r)
  && tuple_free (VDict (TaskLog.info r)).

(** The records of a log, left to right. *)
Fixpoint records (n : Log.rose TaskLog.t) : list TaskLog.t :=
  match n with
  | Log.Leaf r => [r]
  | Log.Seq xs => mjoin (records <$> xs)
  end.

(** A record as it comes back from the store: every field in serialized
    shape. *)
Definition reloaded_record (r : TaskLog.t) : TaskLog.t :=
  TaskLog.mk (persisted (TaskLog.index r)) (persisted (TaskLog.task_class r))
    (persisted <$> TaskLog.inputs r) (persisted <$> TaskLog.outputs r)
    (persisted (TaskLog.last_run_success r)) (persisted <$> TaskLog.info r).

(** A log as it comes back from the store: the same leaves and sequences,
    with the records reloaded. *)
Fixpoint reloaded (n : Log.rose TaskLog.t) : Log.rose TaskLog.t :=
  match n with
  | Log.Leaf r => Log.Leaf (reloaded_record r)
  | Log.Seq xs => Log.Seq (reloaded <$> xs)
  end.

(** Writing [L] with the store [st] and loading the file again gives a log
    equal to [L]. *)
Definition round_trips (st : Log.t) (L : list (Log.rose TaskLog.t)) : Prop :=
  ∃ st' L', Log._set_log L st = (Ok (), st') ∧
            Log._load (Log.new (Log.file st')) = Ok L' ∧
            Log.log_eq L' L = true.

(** What [_write] stores for a node of the log. *)
Fixpoint saved (n : Log.rose TaskLog.t) : pyval :=
  match n with
  | Log.Leaf r => VDict (TaskLog.__dict__ r)
  | Log.Seq xs => VList (saved <$> xs)
  end.

(** ** A small task

    The world is a clock; the action makes it tick, and the output of the
    task is a file whose snapshot is its path and the time. *)

Definition out_file (now : nat) : Param.t nat :=
  Param.mk "out" (VStr "out.txt") (VList [VStr "out.txt"; VInt (Z.of_nat now)])
    (λ w, VList [VStr "out.txt"; VInt (Z.of_nat w)]).

(** A task class with one input and one output, whose success-hook returns
    [results] and whose after-hook is [after]. *)
Definition demo_hooks (results : pyval)
    (after : pyval → nat → result (Task.returned nat) * nat) : Task.Hooks nat :=
  {| Task.__name__ := "Demo";
     Task.before := Task.default_before;
     Task.input := λ w, (Ok [Param.plain "x" (VInt 1)], w);
     Task.output := λ w, (Ok [out_file w], w);
     Task.action := λ w, (Ok (VStr "done"), S w);
     Task.success := λ _ w, (Ok results, w);
     Task.after := after |}.

(** An after-hook that reports what the action returned. *)
Definition report_after : pyval → nat → result (Task.returned nat) * nat :=
  λ rep w, (Ok (Task.RList [Param.plain "report" rep]), w).

(** The instance that [__init__] builds of it at time 0, without
    arguments. *)
Definition demo_task (h : Task.Hooks nat) : Task.t nat :=
  let _name := Param.plain "name_" (VStr (Task.__name__ h)) in
  let _args := Param.plain "args_" (VTuple []) in
  let _kwargs := Param.plain "kwargs_" (VDict ∅) in
  Task.mk h [] ∅ _name _args _kwargs
    [Param.plain "x" (VInt 1); _name; _args; _kwargs] [out_file 0] None.

(** The record of a successful run of it at time 0, as it is stored. *)
Definition demo_record : TaskLog.t :=
  TaskLog.mk (VList [VInt 0]) (VStr "Demo")
    (<["x" := VInt 1]> (<["name_" := VStr "Demo"]> (<["args_" := VList []]>
       (<["kwargs_" := VDict ∅]> ∅))))
    (<["out" := VList [VStr "out.txt"; VInt 0]]> ∅)
    (VBool true) ∅.

(** A task class that declares an input under a reserved name. *)
Definition clash_hooks : Task.Hooks nat :=
  {| Task.__name__ := "Clash";
     Task.before := Task.default_before;
     Task.input := λ w, (Ok [Param.plain "args_" (VInt 0)], w);
     Task.output := λ w, (Ok [out_file w], w);
     Task.action := λ w, (Ok VNone, w);
     Task.success := λ _ w, (Ok (VList []), w);
     Task.after := report_after |}.

(** ** More vocabulary *)

(** [v] is not what is stored: nothing is stored, or a value that differs
    from it. *)
Definition changed_against (v : pyval) (stored : option pyval) : Prop :=
  match stored with
  | Some old_value => py_ne v old_value = true
  | None => True
  end.

(** The leaves of a log of any kind, left to right. *)
Fixpoint leaves {A} (n : Log.rose A) : list A :=
  match n with
  | Log.Leaf a => [a]
  | Log.Seq xs => mjoin (leaves <$> xs)
  end.

(** The index of the record [r] is printed as [k]. *)
Definition prints_as (pretty_print_index : pyval → string → result string)
    (k : string) (r : TaskLog.t) : bool :=
  match pretty_print_index (TaskLog.index r) "underscore" with
  | Ok i => bool_decide (i = k)
  | Raise _ => false
  end.

(** The two lines that [_run] prints first. *)
Definition check_lines {World} (s : Task.state World) : list string :=
  ["inputs changed: " +:+
     str_bool (Task._check (Task.inputs (Task.self s))
                           (TaskLog.inputs (Task.log s)));
   "outputs changed: " +:+
     str_bool (Task._check (Task.outputs (Task.self s))
                           (TaskLog.outputs (Task.log s)))].

(** The snapshot as [_check] compares it: a snapshot that is a tuple is taken
    as the list of its items. *)
Definition normalized (v : pyval) : pyval :=
  match v with
  | VTuple xs => VList xs
  | v => v
  end.

(** The store gives the value back as it is. *)
Definition kept_by_store (v : pyval) : Prop := persisted v = v.


(** What a rerun from state [s] makes of the record when the action and the
    success hook return: a successful run stores the refreshed snapshots of
    the input and output parameters and [True], an unsuccessful run keeps
    the two mappings and stores [False]. *)
Definition rerun_records {World} (s : Task.state World) : Prop :=
  ∀ rep w1 results w2 ok,
    Task.action (Task.hooks (Task.self s)) (Task.world s) = (Ok rep, w1) →
    Task.success (Task.hooks (Task.self s)) rep w1 = (Ok results, w2) →
    py_all results = Ok ok →
    let s' := (Task._rerun s).2 in
    TaskLog.last_run_success (Task.log s') = VBool ok ∧
    if ok then
      refreshed (Task.world s') (Task.inputs (Task.self s))
        (TaskLog.inputs (Task.log s')) ∧
      refreshed (Task.world s') (Task.outputs (Task.self s))
        (TaskLog.outputs (Task.log s'))
    else
      TaskLog.inputs (Task.log s') = TaskLog.inputs (Task.log s) ∧
      TaskLog.outputs (Task.log s') = TaskLog.outputs (Task.log s).

(** ** More instances *)

(** An after-hook that reports what the action returned, twice under one
    name. *)
Definition report_twice : pyval → nat → result (Task.returned nat) * nat :=
  λ rep w, (Ok (Task.RList [Param.plain "report" rep;
                            Param.plain "report" rep]), w).



(** The stored record of the small task with other positional arguments. *)
Definition other_args_record : TaskLog.t :=
  TaskLog.mk (VList [VInt 0]) (VStr "Demo")
    (<["args_" := VList [VInt 7]]> (TaskLog.inputs demo_record))
    (TaskLog.outputs demo_record) (VBool true) ∅.

(** A store whose file holds the record of the small task. *)
Definition demo_store : Log.t :=
  Log.new (Some (json_dump (VList [VDict (TaskLog.__dict__ demo_record)]))).

(** A parameter whose value is a list with a pair in it. *)
Definition pair_in_list : Param.t unit :=
  Param.plain "points" (VList [VTuple [VInt 1; VInt 2]]).

(** * Values *)

Section values.
Implicit Types (v : pyval) (xs : list pyval) (d : gmap string pyval).

Lemma pyval_size_elem xs x :
  x ∈ xs → (pyval_size x < S (foldr (λ x acc, pyval_size x + acc) 0 xs))%nat.
Proof.
  induction 1 as [x xs|x y xs _ IH]; simpl; lia.
Qed.

Lemma pyval_size_lookup d k x :
  d !! k = Some x →
  (pyval_size x < S (map_fold (λ _ x acc, pyval_size x + acc) 0 d))%nat.
Proof.
  intros Hk.
  rewrite (map_fold_delete_L _ _ k x d); [lia | intros; lia | done].
Qed.

(** Induction on values, with the items of a sequence and the values of a
    dictionary as premises. *)
Lemma pyval_nested_ind (P : pyval → Prop) :
  P VNone → (∀ b, P (VBool b)) → (∀ n, P (VInt n)) → (∀ s, P (VStr s)) →
  (∀ xs, Forall P xs → P (VList xs)) →
  (∀ xs, Forall P xs → P (VTuple xs)) →
  (∀ d, map_Forall (λ _, P) d → P (VDict d)) →
  ∀ v, P v.
Proof.
  intros HN HB HI HS HL HT HD v.
  induction v as [v IH] using (induction_ltof1 _ pyval_size).
  unfold ltof in IH. destruct v as [|b|n|s|xs|xs|d]; auto.
  - apply HL, Forall_forall. intros x Hx. apply IH. simpl. by apply pyval_size_elem.
  - apply HT, Forall_forall. intros x Hx. apply IH. simpl. by apply pyval_size_elem.
  - apply HD. intros k x Hk. apply IH. simpl. by eapply pyval_size_lookup.
Qed.

(** A conjunction folded over a map holds exactly when every entry
    satisfies the test. *)
Lemma map_fold_and {A} (f : string → A → bool) (m : gmap string A) :
  map_fold (λ k x acc, acc && f k x) true m = true ↔
  ∀ k x, m !! k = Some x → f k x = true.
Proof.
  apply (map_fold_weak_ind (λ r m, r = true ↔ ∀ k x, m !! k = Some x → f k x = true)).
  - split; [|done]. intros _ k x. by rewrite lookup_empty.
  - intros i x m' r Hi IH. rewrite andb_true_iff, IH. split.
    + intros [Hm Hx] k y. rewrite lookup_insert.
      case_decide as Hik; [|apply Hm]. intros [= <-]. by subst k.
    + intros H. split.
      * intros k y Hk. apply H. rewrite lookup_insert_ne; [done|]. congruence.
      * apply H. by rewrite lookup_insert_eq.
Qed.

Lemma tuple_free_dict d :
  tuple_free (VDict d) = true ↔ ∀ k x, d !! k = Some x → tuple_free x = true.
Proof. simpl. apply (map_fold_and (λ _ x, tuple_free x)). Qed.

Lemma py_eq_refl v : py_eq v v = true.
Proof.
  induction v as [|b|n|s|xs IH|xs IH|d IH] using pyval_nested_ind; simpl;
    try done; try (by apply bool_decide_eq_true).
  - induction IH as [|x xs Hx _ IHxs]; [done|]. by rewrite Hx.
  - induction IH as [|x xs Hx _ IHxs]; [done|]. by rewrite Hx.
  - rewrite bool_decide_eq_true_2 by done. simpl.
    apply (map_fold_and (λ k x, from_option (py_eq x) false (d !! k))).
    intros k x Hk. rewrite Hk. simpl. by eapply IH.
Qed.

(** Persisting a value without tuples gives the value back. *)
Lemma persisted_tuple_free v : tuple_free v = true → persisted v = v.
Proof.
  unfold persisted.
  induction v as [|b|n|s|xs IH|xs IH|d IH] using pyval_nested_ind; simpl;
    try done.
  - intros Hxs. f_equal. rewrite <- list_fmap_compose.
    rewrite <- (list_fmap_id xs) at 2. apply list_fmap_ext.
    intros i x Hx. simpl.
    eapply Forall_lookup_1 in IH; [|done]. apply IH.
    rewrite forallb_forall in Hxs. apply Hxs, list_elem_of_In.
    by eapply list_elem_of_lookup_2.
  - intros Hd. f_equal. rewrite <- map_fmap_compose.
    rewrite <- (map_fmap_id d) at 2. apply map_fmap_ext.
    intros k x Hk. simpl. eapply IH; [done|].
    by eapply (proj1 (tuple_free_dict d)).
Qed.

(** A value with no tuple below its top level is persisted as [_check]
    normalizes it. *)
Lemma persisted_shallow v :
  shallow v = true →
  persisted v = match v with VTuple xs => VList xs | v => v end.
Proof.
  destruct v as [|b|n|s|xs|xs|d]; try apply persisted_tuple_free.
  simpl. intros Hxs. unfold persisted. simpl. f_equal.
  rewrite <- list_fmap_compose. rewrite <- (list_fmap_id xs) at 2.
  apply list_fmap_ext. intros i x Hx. simpl. apply persisted_tuple_free.
  rewrite forallb_forall in Hxs. apply Hxs, list_elem_of_In.
  by eapply list_elem_of_lookup_2.
Qed.
End values.

(** * The change check *)

Section check.
Context {World : Type}.
Implicit Types (p : Param.t World) (ps : list (Param.t World))
  (old : gmap string pyval).

(** The loop of [_check], started with any value of [changed]. *)
Lemma _check_foldl ps old changed :
  foldl (λ changed para,
    match old !! Param.name para with
    | Some old_value =>
        let log_value :=
          match Param._log_value para with
          | VTuple xs => VList xs
          | v => v
          end in
        if py_ne log_value old_value then true else changed
    | None => true
    end) changed ps
  = changed || existsb (λ p, differs p old) ps.
Proof.
  revert changed. induction ps as [|p ps IH]; intros changed; simpl.
  - by rewrite orb_false_r.
  - rewrite IH. unfold differs.
    destruct (old !! Param.name p) as [old_value|]; simpl.
    + by destruct (py_ne _ old_value), changed.
    + by rewrite orb_true_r.
Qed.

(** [_check] answers [True] exactly when the comparison it makes says so
    for one of the parameters. *)
Lemma _check_exists ps old :
  Task._check ps old = true ↔ ∃ p, p ∈ ps ∧ differs p old = true.
Proof.
  unfold Task._check. rewrite _check_foldl. simpl.
  rewrite existsb_exists. setoid_rewrite list_elem_of_In. done.
Qed.


(** The store does not tell a tuple from the list of its items. *)
Lemma persisted_normalized (v : pyval) :
  persisted (normalized v) = persisted v.
Proof. by destruct v. Qed.

End check.




(** * The task lifecycle *)

Lemma is_True_iff v : is_True v = true ↔ v = VBool true.
Proof. destruct v as [|[]| | | | |]; simpl; split; congruence. Qed.

Lemma remove_dups_length_le (l : list string) :
  (length (remove_dups l) ≤ length l)%nat.
Proof.
  induction l as [|x l IH]; simpl; [done|]. case_decide; simpl; lia.
Qed.

(** [len(set(name_list)) == len(name_list)] says that the names are
    distinct. *)
Lemma remove_dups_length (l : list string) :
  length (remove_dups l) = length l ↔ NoDup l.
Proof.
  induction l as [|x l IH]; simpl.
  - split; [constructor|done].
  - rewrite NoDup_cons. case_decide as Hx; simpl.
    + pose proof (remove_dups_length_le l). split; [lia|]. by intros [? _].
    + rewrite <- IH. split; [intros [= ?]; done|intros [_ ->]; done].
Qed.

Section task.
Context {World : Type}.
Implicit Types (s : Task.state World) (task : Task.t World)
  (ps : list (Param.t World)) (record : TaskLog.t) (w : World).

Lemma _process_NoDup ps :
  NoDup (Param.name <$> ps) → Task._process (Task.RList ps) = Ok ps.
Proof.
  intros Hnd. unfold Task._process.
  apply remove_dups_length in Hnd. rewrite Hnd.
  by rewrite Nat.eqb_refl.
Qed.

Lemma _process_dup ps :
  ¬ NoDup (Param.name <$> ps) →
  Task._process (Task.RList ps) = Raise (Warning_ (Param.name <$> ps)).
Proof.
  intros Hnd. unfold Task._process.
  destruct (Nat.eqb_spec (length (remove_dups (Param.name <$> ps)))
              (length (Param.name <$> ps))) as [Heq|Hne]; [|done].
  by apply remove_dups_length in Heq.
Qed.

Lemma _process_Ok r ps :
  Task._process r = Ok ps → r = Task.RList ps ∧ NoDup (Param.name <$> ps).
Proof.
  destruct r as [|ps']; [done|].
  destruct (decide (NoDup (Param.name <$> ps'))) as [Hnd|Hnd].
  - rewrite _process_NoDup by done. by intros [= <-].
  - by rewrite _process_dup.
Qed.

(** The mapping built from a list of parameters, one more at the end. *)
Lemma snapshot_snoc ps (p : Param.t World) :
  Task.snapshot (ps ++ [p])
  = <[Param.name p := Param._log_value p]> (Task.snapshot ps).
Proof. unfold Task.snapshot. by rewrite foldl_app. Qed.

(** After [_rebuild], the mapping holds the fresh snapshot of every
    parameter under its name, and no other name. *)
Lemma _rebuild_refreshed w ps :
  NoDup (Param.name <$> ps) →
  refreshed w ps (Task._rebuild w ps).2.
Proof.
  unfold Task._rebuild. cbn [snd].
  induction ps as [|p ps IH] using rev_ind; intros Hnd.
  - split; [by intros p ?%elem_of_nil|]. intros k [x Hx].
    cbn in Hx. by rewrite lookup_empty in Hx.
  - rewrite fmap_app in Hnd. apply NoDup_app in Hnd as (Hps & Hp & _).
    destruct (IH Hps) as [IH1 IH2].
    rewrite fmap_app. cbn [fmap list_fmap]. rewrite snapshot_snoc. simpl. split.
    + intros q [Hq|Hq%list_elem_of_singleton]%elem_of_app.
      * rewrite lookup_insert_ne; [by apply IH1|].
        intros Heq. apply (Hp (Param.name q)).
        -- by apply (list_elem_of_fmap_2 Param.name).
        -- rewrite <- Heq. simpl. apply list_elem_of_singleton. done.
      * subst q. by rewrite lookup_insert_eq.
    + intros k. rewrite fmap_app, elem_of_app, lookup_insert.
      case_decide as Hk; simpl in Hk.
      * intros _. right. subst k. apply list_elem_of_singleton. done.
      * intros Hsome. left. by apply IH2.
Qed.
End task.

Ltac task_cbn := cbn -[Task._process Task.snapshot Task._check py_all].
Ltac task_unfold :=
  unfold Task.run, Task._run, Task._rerun, Task.bind, Task.print, Task.modify,
    Task.get, Task.call, Task.lift, Task.ret; task_cbn.

Section run.
Context {World : Type}.
Implicit Types (s : Task.state World) (task : Task.t World)
  (ps : list (Param.t World)) (record : TaskLog.t) (w : World).

(** Whatever happens in [_rerun], the action hook is the first hook it
    calls. *)
Lemma _rerun_calls s :
  ∃ cs, Task.calls (Task._rerun s).2 = Task.calls s ++ Task.Action :: cs.
Proof.
  task_unfold.
  destruct (Task.action _ _) as [[rep|e] w1]; cbn; [|by eexists].
  destruct (Task.success _ _ _) as [[results|e] w2]; cbn;
    [|rewrite <- app_assoc; by eexists].
  destruct (py_all results) as [ok|e]; cbn;
    [|rewrite <- app_assoc; by eexists].
  destruct (Task.after _ _ _) as [[returned|e] w3]; cbn;
    [|rewrite <- !app_assoc; by eexists].
  destruct (Task._process returned) as [info_paras|e]; cbn;
    [|rewrite <- !app_assoc; by eexists].
  destruct ok; cbn; rewrite <- !app_assoc; by eexists.
Qed.

(** [_run] prints the two answers of [_check] and then either reruns or
    returns the record. *)
Lemma _run_unfold s :
  let inputs_changed :=
    Task._check (Task.inputs (Task.self s)) (TaskLog.inputs (Task.log s)) in
  let outputs_changed :=
    Task._check (Task.outputs (Task.self s)) (TaskLog.outputs (Task.log s)) in
  let s' := Task.mkstate (Task.world s) (Task.calls s)
    ((Task.stdout s ++ ["inputs changed: " +:+ str_bool inputs_changed])
       ++ ["outputs changed: " +:+ str_bool outputs_changed])
    (Task.self s) (Task.log s) in
  Task._run s =
    if inputs_changed || outputs_changed
       || negb (is_True (TaskLog.last_run_success (Task.log s)))
    then Task._rerun s'
    else (Ok (Task.log s), s').
Proof.
  intros inputs_changed outputs_changed s'.
  unfold Task._run, Task.bind, Task.get, Task.print, Task.modify. cbn.
  fold inputs_changed outputs_changed.
  by destruct (inputs_changed || outputs_changed || _).
Qed.
(** When the inputs or the outputs changed, or the prior
    [last_run_success] is not [True], [_run] is [_rerun] after the two
    lines were printed. *)
Lemma _run_stale task record w :
  Task._check (Task.inputs task) (TaskLog.inputs record)
    || Task._check (Task.outputs task) (TaskLog.outputs record)
    || negb (is_True (TaskLog.last_run_success record)) = true →
  ∃ printed, Task.run task record w =
    Task._rerun (Task.mkstate w [] printed task record).
Proof.
  intros Hstale. unfold Task.run. rewrite _run_unfold.
  cbn [Task.self Task.log Task.calls Task.world Task.stdout].
  rewrite Hstale. by eexists.
Qed.

Lemma stale_iff task record :
  Task._check (Task.inputs task) (TaskLog.inputs record) = true
    ∨ Task._check (Task.outputs task) (TaskLog.outputs record) = true
    ∨ TaskLog.last_run_success record ≠ VBool true ↔
  Task._check (Task.inputs task) (TaskLog.inputs record)
    || Task._check (Task.outputs task) (TaskLog.outputs record)
    || negb (is_True (TaskLog.last_run_success record)) = true.
Proof.
  rewrite !orb_true_iff, negb_true_iff, <- not_true_iff_false.
  rewrite is_True_iff. tauto.
Qed.
End run.

(** C1: a task whose inputs and outputs [_check] finds unchanged and whose
    prior record has [last_run_success] equal to [True] is skipped: [_run]
    returns the prior record as it is, the record object is not changed, and
    no hook is called (nor is the world or the task touched). *)
Theorem run_skips_unchanged {World} (s : Task.state World) :
  Task._check (Task.inputs (Task.self s)) (TaskLog.inputs (Task.log s)) = false →
  Task._check (Task.outputs (Task.self s)) (TaskLog.outputs (Task.log s)) = false →
  TaskLog.last_run_success (Task.log s) = VBool true →
  ∃ s', Task._run s = (Ok (Task.log s), s') ∧
        Task.log s' = Task.log s ∧
        Task.calls s' = Task.calls s ∧
        Task.world s' = Task.world s ∧
        Task.self s' = Task.self s.
Proof.
  intros Hin Hout Hlast. rewrite _run_unfold. cbn zeta.
  rewrite Hin, Hout, Hlast. cbn. eexists. by split_and!.
Qed.

(** C2: [_run] reruns the task — the action hook is called — exactly when
    the inputs changed, or the outputs changed, or the prior
    [last_run_success] is not [True]; it then does what [_rerun] does. In
    particular a prior [last_run_success] of [False] or [None] forces the
    rerun whatever the snapshots are. *)
Theorem run_reruns_iff {World} (task : Task.t World) (record : TaskLog.t)
    (w : World) :
  let inputs_changed := Task._check (Task.inputs task) (TaskLog.inputs record) in
  let outputs_changed := Task._check (Task.outputs task) (TaskLog.outputs record) in
  let stale := inputs_changed = true ∨ outputs_changed = true
               ∨ TaskLog.last_run_success record ≠ VBool true in
  (Task.Action ∈ Task.calls (Task.run task record w).2 ↔ stale) ∧
  (stale → ∃ printed, Task.run task record w =
     Task._rerun (Task.mkstate w [] printed task record)) ∧
  (TaskLog.last_run_success record = VBool false
   ∨ TaskLog.last_run_success record = VNone →
   Task.Action ∈ Task.calls (Task.run task record w).2).
Proof.
  intros inputs_changed outputs_changed stale.
  assert (Hstale : stale ↔
    inputs_changed || outputs_changed
      || negb (is_True (TaskLog.last_run_success record)) = true)
    by apply stale_iff.
  assert (Hrun : Task.Action ∈ Task.calls (Task.run task record w).2 ↔ stale).
  { rewrite Hstale. unfold Task.run. rewrite _run_unfold.
    cbn [Task.self Task.log Task.calls Task.world Task.stdout].
    fold inputs_changed outputs_changed.
    destruct (inputs_changed || outputs_changed || _).
    - split; [done|]. intros _.
      match goal with
      | |- context [Task._rerun ?s'] => destruct (_rerun_calls s') as [cs ->]
      end.
      apply list_elem_of_here.
    - split; [|done]. by intros ?%elem_of_nil. }
  split_and!; [done| |].
  - intros Hs%Hstale. by apply _run_stale.
  - intros Hlast. apply Hrun. right. right.
    destruct Hlast as [-> | ->]; done.
Qed.

(** C4, as amended: in a rerun that returns, that is one whose hooks return
    and whose after-hook hands back distinctly named parameters, a
    successful run stores the refreshed snapshot of every input and of every
    output parameter in the record and sets [last_run_success] to [True]; an
    unsuccessful run leaves the two mappings of the record as they were and
    sets [last_run_success] to [False]. *)
Theorem rerun_updates_record {World} (s : Task.state World)
    (rep : pyval) (w1 : World) (results : pyval) (w2 : World) (ok : bool)
    (ps : list (Param.t World)) (w3 : World) :
  Task.action (Task.hooks (Task.self s)) (Task.world s) = (Ok rep, w1) →
  Task.success (Task.hooks (Task.self s)) rep w1 = (Ok results, w2) →
  py_all results = Ok ok →
  Task.after (Task.hooks (Task.self s)) rep w2 = (Ok (Task.RList ps), w3) →
  NoDup (Param.name <$> ps) →
  NoDup (Param.name <$> Task.inputs (Task.self s)) →
  NoDup (Param.name <$> Task.outputs (Task.self s)) →
  ∃ s', Task._rerun s = (Ok (Task.log s'), s') ∧
    if ok then
      Task.inputs (Task.self s') = Param._update w3 <$> Task.inputs (Task.self s) ∧
      Task.outputs (Task.self s') = Param._update w3 <$> Task.outputs (Task.self s) ∧
      refreshed w3 (Task.inputs (Task.self s)) (TaskLog.inputs (Task.log s')) ∧
      refreshed w3 (Task.outputs (Task.self s)) (TaskLog.outputs (Task.log s')) ∧
      TaskLog.last_run_success (Task.log s') = VBool true
    else
      TaskLog.inputs (Task.log s') = TaskLog.inputs (Task.log s) ∧
      TaskLog.outputs (Task.log s') = TaskLog.outputs (Task.log s) ∧
      TaskLog.last_run_success (Task.log s') = VBool false.
Proof.
  intros Hact Hsucc Hall Hafter Hps Hins Houts.
  task_unfold. rewrite Hact. task_cbn. rewrite Hsucc. task_cbn. rewrite Hall. task_cbn.
  rewrite Hafter. task_cbn. rewrite (_process_NoDup ps Hps). task_cbn.
  destruct ok; task_cbn;
    match goal with |- ∃ s', (_, ?X) = _ ∧ _ => exists X end;
    (split; [reflexivity|]); task_cbn.
  - split_and!; [done|done| | |done].
    + by apply (_rebuild_refreshed w3 (Task.inputs (Task.self s))).
    + by apply (_rebuild_refreshed w3 (Task.outputs (Task.self s))).
  - done.
Qed.

(** C4, as stated, fails: not every rerun gets as far as the record. With
    an after-hook that hands back two parameters of one name, [_process]
    raises its [Warning] before the record is touched: the run was a
    success, and the record still holds no [last_run_success]. *)
Lemma rerun_not_recorded_counterexample :
  ¬ rerun_records
      (Task.mkstate 0%nat [] []
         (demo_task (demo_hooks (VList [VBool true]) report_twice))
         (TaskLog.new (VTuple [VInt 0]) (VStr "Demo"))).
Proof.
  intros Hrecords.
  destruct (Hrecords (VStr "done") 1%nat (VList [VBool true]) 1%nat true
              eq_refl eq_refl eq_refl) as [Hlast _].
  vm_compute in Hlast. discriminate.
Qed.

(** [all] of a list or a tuple is the conjunction of the truth values of its
    items: [True] for none, the truth value of the item for one. *)
Lemma py_all_sequence (xs : list pyval) :
  py_all (VList xs) = Ok (forallb truthy xs) ∧
  py_all (VTuple xs) = Ok (forallb truthy xs).
Proof. done. Qed.

(** C5: the class documentation lets the success-hook return [True] by
    itself; [all] does not take a boolean, and the rerun raises a
    [TypeError] after the action and success hooks ran, the record
    untouched. *)
Theorem rerun_bare_success_raises {World} (s : Task.state World)
    (rep : pyval) (w1 : World) (b : bool) (w2 : World) :
  Task.action (Task.hooks (Task.self s)) (Task.world s) = (Ok rep, w1) →
  Task.success (Task.hooks (Task.self s)) rep w1 = (Ok (VBool b), w2) →
  (Task._rerun s).1 = Raise TypeError ∧
  Task.log (Task._rerun s).2 = Task.log s ∧
  Task.calls (Task._rerun s).2 = Task.calls s ++ [Task.Action; Task.Success].
Proof.
  intros Hact Hsucc. task_unfold. rewrite Hact. task_cbn. rewrite Hsucc. cbn.
  by rewrite <- app_assoc.
Qed.

(** C10: a task that keeps the inherited after-hook cannot complete a rerun.
    Whenever [_run] decides to rerun it, [_run] ends in an exception; and
    when the action and success hooks return, that exception is the
    [TypeError] of [_process] iterating over [None]: the three hooks were
    called and the record is as it was. *)
Theorem default_after_rerun_raises {World} (task : Task.t World)
    (record : TaskLog.t) (w : World) :
  Task.after (Task.hooks task) = Task.default_after →
  Task._check (Task.inputs task) (TaskLog.inputs record) = true
    ∨ Task._check (Task.outputs task) (TaskLog.outputs record) = true
    ∨ TaskLog.last_run_success record ≠ VBool true →
  (∃ e, (Task.run task record w).1 = Raise e) ∧
  (∀ rep w1 results w2 ok,
     Task.action (Task.hooks task) w = (Ok rep, w1) →
     Task.success (Task.hooks task) rep w1 = (Ok results, w2) →
     py_all results = Ok ok →
     (Task.run task record w).1 = Raise TypeError ∧
     Task.calls (Task.run task record w).2
       = [Task.Action; Task.Success; Task.After] ∧
     Task.log (Task.run task record w).2 = record).
Proof.
  intros Hafter Hstale.
  apply stale_iff in Hstale.
  destruct (_run_stale task record w Hstale) as [printed ->].
  task_unfold. rewrite Hafter. unfold Task.default_after. split.
  - destruct (Task.action _ _) as [[rep|e] w1]; task_cbn; [|by eexists].
    destruct (Task.success _ _ _) as [[results|e] w2]; task_cbn; [|by eexists].
    destruct (py_all results) as [ok|e]; task_cbn; by eexists.
  - intros rep w1 results w2 ok Hact Hsucc Hall.
    rewrite Hact. task_cbn. rewrite Hsucc. task_cbn. by rewrite Hall.
Qed.

(** [__init__] accepts parameter sets with distinct names; a name may
    occur in both sets. *)
Lemma init_accepts_distinct {World} (h : Task.Hooks World)
    (args : list pyval) (kwargs : gmap string pyval)
    (w w1 : World) (ins : list (Param.t World)) (w2 : World)
    (outs : list (Param.t World)) (w3 : World) :
  Task.before h w = (Ok (), w1) →
  Task.input h w1 = (Ok ins, w2) →
  Task.output h w2 = (Ok outs, w3) →
  NoDup ((Param.name <$> ins) ++ reserved) →
  NoDup (Param.name <$> outs) →
  ∃ task, Task.__init__ h args kwargs w = (Ok task, w3) ∧
          Param.name <$> Task.inputs task = (Param.name <$> ins) ++ reserved ∧
          Task.outputs task = outs.
Proof.
  intros Hbefore Hinput Houtput Hins Houts. unfold Task.__init__.
  rewrite Hbefore, Hinput. rewrite _process_NoDup.
  - rewrite Houtput. rewrite _process_NoDup by done.
    eexists. split_and!; [done| |done]. cbn. by rewrite fmap_app.
  - by rewrite fmap_app.
Qed.

(** The parameter sets of a task that [__init__] built have distinct
    names. *)
Lemma init_distinct_names {World} (h : Task.Hooks World)
    (args : list pyval) (kwargs : gmap string pyval) (w w' : World)
    (task : Task.t World) :
  Task.__init__ h args kwargs w = (Ok task, w') →
  NoDup (Param.name <$> Task.inputs task) ∧
  NoDup (Param.name <$> Task.outputs task).
Proof.
  unfold Task.__init__.
  destruct (Task.before h w) as [[[]|e] w1]; [|done].
  destruct (Task.input h w1) as [[ins|e] w2]; [|done].
  destruct (Task._process (Task.RList (ins ++ _))) as [inputs|e] eqn:Hins;
    [|done].
  destruct (Task.output h w2) as [[outs|e] w3]; [|done].
  destruct (Task._process (Task.RList outs)) as [outputs|e] eqn:Houts; [|done].
  intros [= <- <-]. cbn.
  apply _process_Ok in Hins as [_ Hins]. by apply _process_Ok in Houts as [_ Houts].
Qed.

(** C6: the input set (the declared inputs followed by the three provenance
    parameters) and the output set are each checked for distinct names when
    the task is built. A name that occurs twice in the input set — a
    declared input with a reserved name is such a case — makes [__init__]
    raise the [Warning] of [_process], before the outputs are asked for; a
    name that occurs twice in the output set makes it raise as well. No
    task is built. *)
Theorem init_rejects_duplicates {World} (h : Task.Hooks World)
    (args : list pyval) (kwargs : gmap string pyval)
    (w w1 : World) (ins : list (Param.t World)) (w2 : World)
    (outs : list (Param.t World)) (w3 : World) :
  Task.before h w = (Ok (), w1) →
  Task.input h w1 = (Ok ins, w2) →
  Task.output h w2 = (Ok outs, w3) →
  let input_names := (Param.name <$> ins) ++ reserved in
  let output_names := Param.name <$> outs in
  (¬ NoDup input_names →
   Task.__init__ h args kwargs w = (Raise (Warning_ input_names), w2)) ∧
  (∀ p, p ∈ ins → Param.name p ∈ reserved →
   Task.__init__ h args kwargs w = (Raise (Warning_ input_names), w2)) ∧
  (NoDup input_names → ¬ NoDup output_names →
   Task.__init__ h args kwargs w = (Raise (Warning_ output_names), w3)).
Proof.
  intros Hbefore Hinput Houtput input_names output_names.
  assert (Hdup : ¬ NoDup input_names →
    Task.__init__ h args kwargs w = (Raise (Warning_ input_names), w2)).
  { intros Hnd. unfold Task.__init__. rewrite Hbefore, Hinput.
    rewrite _process_dup; rewrite fmap_app; done. }
  split_and!; [done| |].
  - intros p Hp Hres. apply Hdup. unfold input_names.
    intros [_ [Hdisj _]]%NoDup_app. apply (Hdisj (Param.name p)); [|done].
    by apply (list_elem_of_fmap_2 Param.name).
  - intros Hins Houts. unfold Task.__init__. rewrite Hbefore, Hinput.
    rewrite _process_NoDup by (by rewrite fmap_app).
    rewrite Houtput. by rewrite _process_dup.
Qed.

(** * The log store *)

(** Induction on logs, with the items of a sequence as premises. *)
Lemma rose_nested_ind {A} (P : Log.rose A → Prop) :
  (∀ a, P (Log.Leaf a)) →
  (∀ xs, Forall P xs → P (Log.Seq xs)) →
  ∀ n, P n.
Proof.
  intros HLeaf HSeq. fix IH 1. intros [a|xs]; [apply HLeaf|].
  apply HSeq. induction xs as [|x xs IHxs]; constructor; [apply IH|apply IHxs].
Qed.

Lemma collect_fmap_Ok {A B} (f : A → result B) (h : B → A) (L : list B) :
  Forall (λ i, f (h i) = Ok i) L → Log.collect f (h <$> L) = Ok L.
Proof.
  induction 1 as [|i L Hi _ IH]; [done|]. cbn. by rewrite Hi, IH.
Qed.

Lemma TaskLog_eq_refl (r : TaskLog.t) : TaskLog.__eq__ r r = true.
Proof. apply py_eq_refl. Qed.

Lemma node_eq_refl (n : Log.rose TaskLog.t) : Log.node_eq n n = true.
Proof.
  induction n as [r|xs IH] using rose_nested_ind; cbn.
  - apply TaskLog_eq_refl.
  - induction IH as [|x xs Hx _ IHxs]; [done|]. by rewrite Hx.
Qed.

(** Building a record from its own attribute dictionary gives the record. *)
Lemma _from_dict_to_dict (r : TaskLog.t) :
  TaskLog._from_dict (VDict (TaskLog.__dict__ r)) = Ok r.
Proof.
  destruct r as [i c ins outs last inf]. unfold TaskLog._from_dict.
  assert (Hdom : dom (TaskLog.__dict__ (TaskLog.mk i c ins outs last inf))
                 ⊆ TaskLog.fields).
  { unfold TaskLog.__dict__, TaskLog.fields. rewrite !dom_insert_L. set_solver. }
  rewrite (bool_decide_eq_true_2 _ Hdom). cbn [negb].
  unfold TaskLog.__dict__. cbn [TaskLog.index TaskLog.task_class TaskLog.inputs
    TaskLog.outputs TaskLog.last_run_success TaskLog.info].
  by simplify_map_eq.
Qed.

(** What [_write] computes from the log is what [saved] describes. *)
Lemma iterate_item_dict (n : Log.rose TaskLog.t) :
  ∃ n', Log.iterate_item (λ x, Ok (VDict (TaskLog.__dict__ x))) n = Ok n' ∧
        Log.listed n' = saved n.
Proof.
  induction n as [r|xs IH] using rose_nested_ind; cbn.
  - by eexists.
  - assert (∃ ys, Log.collect
      (Log.iterate_item (λ x, Ok (VDict (TaskLog.__dict__ x)))) xs = Ok ys
      ∧ Log.listed <$> ys = saved <$> xs) as (ys & -> & Hys).
    { induction IH as [|x xs (x' & Hx & Hx') _ (ys & Hys & Hys')];
        [by exists []|].
      exists (x' :: ys). cbn. rewrite Hx, Hys. split; [done|].
      by rewrite Hx', Hys'. }
    eexists. split; [done|]. cbn. by rewrite Hys.
Qed.

Lemma _recursive_iterate_log_dict (L : list (Log.rose TaskLog.t)) :
  ∃ save_log,
    Log._recursive_iterate_log L (λ x, Ok (VDict (TaskLog.__dict__ x)))
      = Ok save_log ∧
    Log.listed <$> save_log = saved <$> L.
Proof.
  unfold Log._recursive_iterate_log.
  induction L as [|n L (ys & Hys & Hys')]; [by exists []|].
  destruct (iterate_item_dict n) as (n' & Hn & Hn').
  exists (n' :: ys). cbn. rewrite Hn, Hys. split; [done|].
  by rewrite Hn', Hys'.
Qed.

(** Reading back what was stored for a node gives the node. *)
Lemma iterate_item_saved (n : Log.rose TaskLog.t) :
  Log.iterate_item TaskLog._from_dict (Log.node_of (saved n)) = Ok n.
Proof.
  induction n as [r|xs IH] using rose_nested_ind.
  - cbn [saved Log.node_of Log.iterate_item]. by rewrite _from_dict_to_dict.
  - cbn [saved Log.node_of Log.iterate_item].
    rewrite <- list_fmap_compose. by rewrite collect_fmap_Ok.
Qed.

Lemma persisted_VDict (d : gmap string pyval) :
  persisted (VDict d) = VDict (persisted <$> d).
Proof. unfold persisted. cbn. by rewrite <- map_fmap_compose. Qed.

Lemma persisted_VList (xs : list pyval) :
  persisted (VList xs) = VList (persisted <$> xs).
Proof. unfold persisted. cbn. by rewrite <- list_fmap_compose. Qed.

(** What the store gives back for the stored form of a node is the stored
    form of the reloaded node. *)
Lemma persisted_saved (n : Log.rose TaskLog.t) :
  persisted (saved n) = saved (reloaded n).
Proof.
  induction n as [r|xs IH] using rose_nested_ind.
  - cbn [saved reloaded]. rewrite persisted_VDict. f_equal.
    unfold TaskLog.__dict__, reloaded_record.
    rewrite !fmap_insert, fmap_empty, !persisted_VDict. done.
  - cbn [saved reloaded]. rewrite persisted_VList. f_equal.
    rewrite <- !list_fmap_compose. apply list_fmap_ext.
    intros i n Hn. cbn. eapply Forall_lookup_1 in IH; done.
Qed.

Lemma persisted_map_tuple_free (d : gmap string pyval) :
  tuple_free (VDict d) = true → persisted <$> d = d.
Proof.
  intros Hd%persisted_tuple_free. rewrite persisted_VDict in Hd.
  by injection Hd.
Qed.

(** A log whose records hold no tuple comes back as it is. *)
Lemma reloaded_tuple_free (n : Log.rose TaskLog.t) :
  (∀ r, r ∈ records n → record_tuple_free r = true) → reloaded n = n.
Proof.
  induction n as [r|xs IH] using rose_nested_ind; intros Hfree.
  - specialize (Hfree r (list_elem_of_here _ _)).
    destruct r as [i c ins outs last inf].
    unfold record_tuple_free in Hfree. rewrite !andb_true_iff in Hfree.
    cbn [TaskLog.index TaskLog.task_class TaskLog.inputs TaskLog.outputs
         TaskLog.last_run_success TaskLog.info] in Hfree.
    destruct Hfree as (((((Hi & Hc) & Hins) & Houts) & Hlast) & Hinf).
    cbn [reloaded]. unfold reloaded_record.
    cbn [TaskLog.index TaskLog.task_class TaskLog.inputs TaskLog.outputs
         TaskLog.last_run_success TaskLog.info].
    rewrite !persisted_tuple_free by done.
    by rewrite !persisted_map_tuple_free by done.
  - cbn [reloaded]. f_equal. rewrite <- (list_fmap_id xs) at 2.
    apply list_fmap_ext. intros i n Hn. cbn.
    eapply Forall_lookup_1 in IH; [|done]. apply IH.
    intros r Hr. apply Hfree. cbn [records].
    apply list_elem_of_join. exists (records n). split; [done|].
    apply list_elem_of_fmap_2. by eapply list_elem_of_lookup_2.
Qed.

Lemma json_size_elem (xs : list json) (x : json) :
  x ∈ xs → (json_size x < S (foldr (λ x acc, json_size x + acc) 0 xs))%nat.
Proof.
  induction 1 as [x xs|x y xs _ IH]; simpl; lia.
Qed.

Lemma json_size_lookup (m : gmap string json) (k : string) (x : json) :
  m !! k = Some x →
  (json_size x < S (map_fold (λ _ x acc, json_size x + acc) 0 m))%nat.
Proof.
  intros Hk.
  rewrite (map_fold_delete_L _ _ k x m); [lia | intros; lia | done].
Qed.

(** What [json.load] builds holds no tuple. *)
Lemma json_load_tuple_free (j : json) : tuple_free (json_load j) = true.
Proof.
  induction j as [j IH] using (induction_ltof1 _ json_size).
  unfold ltof in IH. destruct j as [|b|n|s|xs|m]; try done.
  - cbn. apply forallb_forall. intros v Hv.
    apply list_elem_of_In, list_elem_of_fmap in Hv as (x & -> & Hx).
    apply IH. simpl. by apply json_size_elem.
  - cbn [json_load]. apply tuple_free_dict. intros k v Hk.
    rewrite lookup_fmap in Hk. destruct (m !! k) as [x|] eqn:Hx; [|done].
    injection Hk as <-. apply IH. simpl. by eapply json_size_lookup.
Qed.

Lemma persisted_idemp (v : pyval) : persisted (persisted v) = persisted v.
Proof. apply persisted_tuple_free, json_load_tuple_free. Qed.

(** What came back from the store comes back from it as it is. *)
Lemma reloaded_idemp (n : Log.rose TaskLog.t) :
  reloaded (reloaded n) = reloaded n.
Proof.
  induction n as [r|xs IH] using rose_nested_ind.
  - cbn [reloaded]. f_equal. unfold reloaded_record.
    cbn [TaskLog.index TaskLog.task_class TaskLog.inputs TaskLog.outputs
         TaskLog.last_run_success TaskLog.info].
    rewrite !persisted_idemp, <- !map_fmap_compose.
    f_equal; apply map_fmap_ext; intros k v _; apply persisted_idemp.
  - cbn [reloaded]. f_equal. rewrite <- list_fmap_compose.
    apply list_fmap_ext. intros i n Hn. cbn.
    by eapply Forall_lookup_1 in IH.
Qed.

(** [_load] reads the file only. *)
Lemma _load_file (st st' : Log.t) :
  Log.file st' = Log.file st → Log._load st' = Log._load st.
Proof. unfold Log._load. by intros ->. Qed.

(** What [_write] does once the log is at hand. *)
Lemma _write_log (st st1 : Log.t) (L : list (Log.rose TaskLog.t)) :
  Log.log st = (Ok L, st1) →
  Log._write st
  = (Ok (), Log.mk (Some (json_dump (VList (saved <$> L)))) (Log._log st1)).
Proof.
  intros Hlog. unfold Log._write. rewrite Hlog.
  destruct (_recursive_iterate_log_dict L) as (save_log & -> & Hlisted).
  by rewrite Hlisted.
Qed.

(** Loading what [_write] stored for a log gives the log reloaded. *)
Lemma _load_saved (L : list (Log.rose TaskLog.t)) (cache : option (list (Log.rose TaskLog.t))) :
  Log._load (Log.mk (Some (json_dump (VList (saved <$> L)))) cache)
  = Ok (reloaded <$> L).
Proof.
  unfold Log._load. cbn [Log.file].
  change (json_load (json_dump (VList (saved <$> L))))
    with (persisted (saved (Log.Seq L))).
  rewrite persisted_saved. cbn [reloaded saved py_iter].
  unfold Log._recursive_iterate_log.
  rewrite <- list_fmap_compose. apply collect_fmap_Ok.
  apply Forall_forall. intros n _. apply iterate_item_saved.
Qed.

(** Setting a log that is not empty, or any log over a file without
    entries, writes it. *)
Lemma _set_log_writes (st : Log.t) (L : list (Log.rose TaskLog.t)) :
  L ≠ [] ∨ Log._load st = Ok [] →
  Log._set_log L st
  = (Ok (), Log.mk (Some (json_dump (VList (saved <$> L)))) (Some L)).
Proof.
  intros Hnonempty. unfold Log._set_log.
  apply (_write_log _ (Log.mk (Log.file st) (Some L))).
  destruct L as [|i L]; [|done]. destruct Hnonempty as [?|Hload]; [done|].
  unfold Log.log. cbn [Log._log].
  by rewrite (_load_file st (Log.mk (Log.file st) (Some []))), Hload.
Qed.

(** C9, as amended: a log that is not empty (or any log, for a store whose
    file holds no entry yet) is loaded back, after it was written with the
    store, with the same leaves and sequences and with every field of every
    record in serialized shape, tuples as lists. The log that is loaded is
    not the one that was written, in general; but it is in the shape that
    the store keeps: written with the store and loaded in its turn, it
    comes back equal, records equal in all their fields. *)
Theorem log_reloads_persisted (st : Log.t) (L : list (Log.rose TaskLog.t)) :
  L ≠ [] ∨ Log._load st = Ok [] →
  (∃ st', Log._set_log L st = (Ok (), st') ∧
          Log._load (Log.new (Log.file st')) = Ok (reloaded <$> L)) ∧
  round_trips st (reloaded <$> L).
Proof.
  intros Hnonempty. split.
  - eexists. split; [by apply _set_log_writes|]. apply _load_saved.
  - eexists _, _. split_and!.
    + apply _set_log_writes. destruct Hnonempty as [HL|?]; [left|by right].
      by destruct L.
    + apply _load_saved.
    + rewrite <- list_fmap_compose.
      rewrite (list_fmap_ext (reloaded ∘ reloaded) reloaded L)
        by (intros i n _; apply reloaded_idemp).
      apply (node_eq_refl (Log.Seq (reloaded <$> L))).
Qed.

(** C9, as stated, fails: the index of a record is a position in tuple
    form, which JSON stores as an array, so the record that is loaded has a
    list as its index and is not equal to the one that was written. *)
Lemma log_round_trip_counterexample :
  ¬ round_trips (Log.new None)
      [Log.Leaf (TaskLog.new (VTuple [VInt 0]) (VStr "Demo"))].
Proof.
  intros (st' & L' & Hwrite & Hload & Heq).
  vm_compute in Hwrite. injection Hwrite as <-.
  vm_compute in Hload. injection Hload as <-.
  vm_compute in Heq. discriminate.
Qed.

(** * Instances *)

(** The small task against the stored record of its last successful run:
    it is skipped. *)
Lemma run_skips_unchanged_witness :
  let task := demo_task (demo_hooks (VList [VBool true]) report_after) in
  ∃ s', Task._run (Task.mkstate 0%nat [] [] task demo_record)
          = (Ok demo_record, s') ∧
        Task.log s' = demo_record ∧
        Task.calls s' = [] ∧
        Task.world s' = 0%nat ∧
        Task.self s' = task.
Proof.
  intros task.
  apply (run_skips_unchanged (Task.mkstate 0%nat [] [] task demo_record));
    reflexivity.
Defined.

(** The small task against a fresh record, whose [last_run_success] is
    [None]: the action hook is called. *)
Lemma run_reruns_iff_witness :
  Task.Action ∈ Task.calls
    (Task.run (demo_task (demo_hooks (VList [VBool true]) report_after))
       (TaskLog.new (VTuple [VInt 0]) (VStr "Demo")) 0%nat).2.
Proof.
  exact (proj2 (proj2 (run_reruns_iff
           (demo_task (demo_hooks (VList [VBool true]) report_after))
           (TaskLog.new (VTuple [VInt 0]) (VStr "Demo")) 0%nat))
         (or_intror eq_refl)).
Defined.

(** The small task rerun against a fresh record: the run succeeds and the
    record holds the snapshots taken at time 1. *)
Lemma rerun_updates_record_witness :
  let task := demo_task (demo_hooks (VList [VBool true]) report_after) in
  let s := Task.mkstate 0%nat [] [] task
             (TaskLog.new (VTuple [VInt 0]) (VStr "Demo")) in
  ∃ s', Task._rerun s = (Ok (Task.log s'), s') ∧
        Task.inputs (Task.self s') = Param._update 1%nat <$> Task.inputs task ∧
        Task.outputs (Task.self s') = Param._update 1%nat <$> Task.outputs task ∧
        refreshed 1%nat (Task.inputs task) (TaskLog.inputs (Task.log s')) ∧
        refreshed 1%nat (Task.outputs task) (TaskLog.outputs (Task.log s')) ∧
        TaskLog.last_run_success (Task.log s') = VBool true.
Proof.
  intros task s.
  apply (rerun_updates_record s (VStr "done") 1%nat (VList [VBool true]) 1%nat
           true [Param.plain "report" (VStr "done")] 1%nat);
    try reflexivity;
    apply (bool_decide_unpack _); vm_compute; exact I.
Defined.

(** The small task with a success-hook that returns [True] by itself. *)
Lemma rerun_bare_success_raises_witness :
  let s := Task.mkstate 0%nat [] []
             (demo_task (demo_hooks (VBool true) report_after))
             (TaskLog.new (VTuple [VInt 0]) (VStr "Demo")) in
  (Task._rerun s).1 = Raise TypeError ∧
  Task.log (Task._rerun s).2 = Task.log s ∧
  Task.calls (Task._rerun s).2 = Task.calls s ++ [Task.Action; Task.Success].
Proof.
  intros s.
  apply (rerun_bare_success_raises s (VStr "done") 1%nat true 1%nat);
    reflexivity.
Defined.

(** A declared input named [args_] collides with the reserved parameter. *)
Lemma init_rejects_duplicates_witness :
  Task.__init__ clash_hooks [] ∅ 0%nat
  = (Raise (Warning_ ["args_"; "name_"; "args_"; "kwargs_"]), 0%nat).
Proof.
  refine (proj1 (init_rejects_duplicates clash_hooks [] ∅ 0%nat 0%nat
                   [Param.plain "args_" (VInt 0)] 0%nat [out_file 0] 0%nat
                   eq_refl eq_refl eq_refl) _).
  intros Hnd. apply (bool_decide_pack _) in Hnd. vm_compute in Hnd. exact Hnd.
Defined.

(** The small task with the inherited after-hook, against a fresh record. *)
Lemma default_after_rerun_raises_witness :
  let task := demo_task (demo_hooks (VList [VBool true]) Task.default_after) in
  let record := TaskLog.new (VTuple [VInt 0]) (VStr "Demo") in
  (∃ e, (Task.run task record 0%nat).1 = Raise e) ∧
  (∀ rep w1 results w2 ok,
     Task.action (Task.hooks task) 0%nat = (Ok rep, w1) →
     Task.success (Task.hooks task) rep w1 = (Ok results, w2) →
     py_all results = Ok ok →
     (Task.run task record 0%nat).1 = Raise TypeError ∧
     Task.calls (Task.run task record 0%nat).2
       = [Task.Action; Task.Success; Task.After] ∧
     Task.log (Task.run task record 0%nat).2 = record).
Proof.
  intros task record.
  apply (default_after_rerun_raises task record 0%nat); [reflexivity|].
  right. right. discriminate.
Defined.

(** A record with its index in tuple form, alone and in a group: what the
    store gives back for this log is loaded back equal. *)
Lemma log_reloads_persisted_witness :
  round_trips (Log.new None)
    (reloaded <$> [Log.Leaf (TaskLog.new (VTuple [VInt 0]) (VStr "Demo"));
                   Log.Seq [Log.Leaf demo_record]]).
Proof. apply log_reloads_persisted. by left. Defined.

(** The hand-written instance is the one that [__init__] builds. *)
Example demo_task_init (h := demo_hooks (VList [VBool true]) report_after) :
  Task.__init__ h [] ∅ 0%nat = (Ok (demo_task h), 0%nat).
Proof. reflexivity. Qed.

(** Scenario D and the skip after it, end to end: a first run against a
    record with an unknown [last_run_success] reruns the task and succeeds;
    the record goes through the store; a second instance of the task, run at
    the time the first run ended, finds it unchanged and is skipped. The
    record that was loaded is not equal to the one that was written: the
    snapshot of the positional arguments is a tuple in the one and a list
    in the other. *)
Example second_run_is_skipped (h := demo_hooks (VList [VBool true]) report_after) :
  ∃ r1 s1 st r1' task' s2,
    Task.run (demo_task h) (TaskLog.new (VList [VInt 0]) (VStr "Demo")) 0%nat
      = (Ok r1, s1) ∧
    Task.calls s1 = [Task.Action; Task.Success; Task.After] ∧
    TaskLog.last_run_success r1 = VBool true ∧
    Log._set_log [Log.Leaf r1] (Log.new None) = (Ok (), st) ∧
    Log._load (Log.new (Log.file st)) = Ok [Log.Leaf r1'] ∧
    Task.__init__ h [] ∅ (Task.world s1) = (Ok task', Task.world s1) ∧
    Task.run task' r1' (Task.world s1) = (Ok r1', s2) ∧
    Task.calls s2 = [] ∧
    TaskLog.__eq__ r1' r1 = false.
Proof.
  eexists _, _, _, _, _, _.
  split_and!; try (vm_compute; reflexivity).
Qed.

(** * More on the task lifecycle *)

Section rerun.
Context {World : Type}.
Implicit Types (s : Task.state World) (task : Task.t World)
  (ps : list (Param.t World)) (record r : TaskLog.t) (w : World).

(** A rerun that returns: what the hooks gave and what became of the
    state. *)
Lemma _rerun_Ok s r s' :
  Task._rerun s = (Ok r, s') →
  ∃ rep w1 results w2 ok ps,
    Task.action (Task.hooks (Task.self s)) (Task.world s) = (Ok rep, w1) ∧
    Task.success (Task.hooks (Task.self s)) rep w1 = (Ok results, w2) ∧
    py_all results = Ok ok ∧
    Task.after (Task.hooks (Task.self s)) rep w2
      = (Ok (Task.RList ps), Task.world s') ∧
    NoDup (Param.name <$> ps) ∧
    r = Task.log s' ∧
    Task.calls s' = Task.calls s ++ [Task.Action; Task.Success; Task.After] ∧
    TaskLog.index r = TaskLog.index (Task.log s) ∧
    TaskLog.task_class r = TaskLog.task_class (Task.log s) ∧
    TaskLog.info r = Task.snapshot (Param._update (Task.world s') <$> ps) ∧
    TaskLog.last_run_success r = VBool ok ∧
    if ok then
      Task.inputs (Task.self s')
        = Param._update (Task.world s') <$> Task.inputs (Task.self s) ∧
      Task.outputs (Task.self s')
        = Param._update (Task.world s') <$> Task.outputs (Task.self s) ∧
      TaskLog.inputs r = Task.snapshot (Task.inputs (Task.self s')) ∧
      TaskLog.outputs r = Task.snapshot (Task.outputs (Task.self s'))
    else
      Task.inputs (Task.self s') = Task.inputs (Task.self s) ∧
      Task.outputs (Task.self s') = Task.outputs (Task.self s) ∧
      TaskLog.inputs r = TaskLog.inputs (Task.log s) ∧
      TaskLog.outputs r = TaskLog.outputs (Task.log s).
Proof.
  task_unfold.
  destruct (Task.action _ _) as [[rep|e] w1] eqn:Hact; task_cbn; [|done].
  destruct (Task.success _ _ _) as [[results|e] w2] eqn:Hsucc; task_cbn; [|done].
  destruct (py_all results) as [ok|e] eqn:Hall; task_cbn; [|done].
  destruct (Task.after _ _ _) as [[returned|e] w3] eqn:Hafter; task_cbn; [|done].
  destruct (Task._process returned) as [info_paras|e] eqn:Hproc; task_cbn;
    [|done].
  apply _process_Ok in Hproc as [-> Hnd].
  destruct ok; task_cbn; intros [= <- <-]; task_cbn;
    exists rep, w1, results, w2; eexists _, info_paras;
    rewrite <- !app_assoc; by split_and!.
Qed.

End rerun.

Section run_facts.
Context {World : Type}.
Implicit Types (s : Task.state World) (task : Task.t World)
  (ps : list (Param.t World)) (record r : TaskLog.t) (w : World).

(** A task that [_check] finds changed is rerun: the action hook is
    called. *)
Lemma run_calls_action task record w :
  Task._check (Task.inputs task) (TaskLog.inputs record)
    || Task._check (Task.outputs task) (TaskLog.outputs record)
    || negb (is_True (TaskLog.last_run_success record)) = true →
  Task.Action ∈ Task.calls (Task.run task record w).2.
Proof.
  intros Hstale. destruct (_run_stale task record w Hstale) as [printed ->].
  match goal with
  | |- context [Task._rerun ?s'] => destruct (_rerun_calls s') as [cs ->]
  end.
  apply list_elem_of_here.
Qed.

(** The parameter sets that [__init__] builds. *)
Lemma init_Ok h args kwargs w w' task :
  Task.__init__ h args kwargs w = (Ok task, w') →
  ∃ ins, Task.inputs task
         = ins ++ [Param.plain "name_" (VStr (Task.__name__ h));
                   Param.plain "args_" (VTuple args);
                   Param.plain "kwargs_" (VDict kwargs)]
         ∧ Task.args task = args ∧ Task.kwargs task = kwargs
         ∧ Task.hooks task = h.
Proof.
  unfold Task.__init__.
  destruct (Task.before h w) as [[[]|e] w1]; [|done].
  destruct (Task.input h w1) as [[ins|e] w2]; [|done].
  destruct (Task._process (Task.RList (ins ++ _))) as [inputs|e] eqn:Hins;
    [|done].
  destruct (Task.output h w2) as [[outs|e] w3]; [|done].
  destruct (Task._process (Task.RList outs)) as [outputs|e]; [|done].
  intros [= <- <-]. apply _process_Ok in Hins as [[= <-] _].
  by exists ins.
Qed.

Lemma _check_elem ps old (p : Param.t World) :
  p ∈ ps → differs p old = true → Task._check ps old = true.
Proof. intros Hp Hd. apply _check_exists. by exists p. Qed.

(** The mapping that [_rebuild] gives, looked up under the name of one of
    the parameters. *)
Lemma snapshot_lookup w ps (p : Param.t World) :
  NoDup (Param.name <$> ps) → p ∈ ps →
  Task.snapshot (Param._update w <$> ps) !! Param.name p
  = Some (Param.refresh p w).
Proof. intros Hnd Hp. by apply (_rebuild_refreshed w ps Hnd). Qed.
End run_facts.


(** X2: the record that [_run] returns is the record object it was given,
    with the same index and task label; its [last_run_success] is [True] or
    [False], never unknown; and either no hook was called, and then the
    record is unchanged, or the action, success and after hooks were called,
    once each and in this order. *)
Theorem run_returns_settled {World} (s : Task.state World) (r : TaskLog.t)
    (s' : Task.state World) :
  Task._run s = (Ok r, s') →
  r = Task.log s' ∧
  TaskLog.index r = TaskLog.index (Task.log s) ∧
  TaskLog.task_class r = TaskLog.task_class (Task.log s) ∧
  (∃ b, TaskLog.last_run_success r = VBool b) ∧
  (Task.calls s' = Task.calls s ∧ r = Task.log s
   ∨ Task.calls s' = Task.calls s ++ [Task.Action; Task.Success; Task.After]).
Proof.
  rewrite _run_unfold. cbn zeta.
  destruct (_ || _ || _) eqn:Hstale.
  - intros Hrerun. apply _rerun_Ok in Hrerun
      as (rep & w1 & results & w2 & ok & ps & _ & _ & _ & _ & _ & -> & Hcalls
          & Hindex & Hclass & _ & Hlast & _).
    split_and!; [done|done|done|by exists ok|by right].
  - intros [= <- <-]. cbn. split_and!; [done|done|done| |by left].
    rewrite !orb_false_iff, negb_false_iff, is_True_iff in Hstale.
    exists true. apply Hstale.
Qed.

(** X3: a rerun that returns replaces the info mapping of the record by the
    refreshed snapshots of the parameters that the after-hook handed back,
    whether the run was a success or not. *)
Theorem rerun_replaces_info {World} (s : Task.state World) (r : TaskLog.t)
    (s' : Task.state World) :
  Task._rerun s = (Ok r, s') →
  ∃ rep w2 ps,
    Task.after (Task.hooks (Task.self s)) rep w2
      = (Ok (Task.RList ps), Task.world s') ∧
    refreshed (Task.world s') ps (TaskLog.info r).
Proof.
  intros Hrerun. apply _rerun_Ok in Hrerun
    as (rep & w1 & results & w2 & ok & ps & _ & _ & _ & Hafter & Hnd & _ & _
        & _ & _ & Hinfo & _).
  exists rep, w2, ps. split; [done|]. rewrite Hinfo.
  by apply (_rebuild_refreshed (Task.world s') ps).
Qed.

(** X4: the three provenance parameters do their work. For a task that
    [__init__] built, a record whose stored [name_] differs from the class
    name, or whose stored [args_] differs from the list of the positional
    arguments, or whose stored [kwargs_] differs from the keyword arguments
    — or that lacks one of them — is found changed, and the task is rerun. *)
Theorem init_provenance_forces_rerun {World} (h : Task.Hooks World)
    (args : list pyval) (kwargs : gmap string pyval) (w w' : World)
    (task : Task.t World) (record : TaskLog.t) (w0 : World) :
  Task.__init__ h args kwargs w = (Ok task, w') →
  changed_against (VStr (Task.__name__ h)) (TaskLog.inputs record !! "name_")
  ∨ changed_against (VList args) (TaskLog.inputs record !! "args_")
  ∨ changed_against (VDict kwargs) (TaskLog.inputs record !! "kwargs_") →
  Task._check (Task.inputs task) (TaskLog.inputs record) = true ∧
  Task.Action ∈ Task.calls (Task.run task record w0).2.
Proof.
  intros (ins & Hinputs & _)%init_Ok Hchanged.
  assert (Hcheck : Task._check (Task.inputs task) (TaskLog.inputs record) = true).
  { rewrite Hinputs. destruct Hchanged as [Hc|[Hc|Hc]].
    - apply (_check_elem _ _ (Param.plain "name_" (VStr (Task.__name__ h)))).
      + set_solver.
      + unfold differs, changed_against in *. cbn.
        by destruct (TaskLog.inputs record !! "name_").
    - apply (_check_elem _ _ (Param.plain "args_" (VTuple args))).
      + set_solver.
      + unfold differs, changed_against in *. cbn.
        by destruct (TaskLog.inputs record !! "args_").
    - apply (_check_elem _ _ (Param.plain "kwargs_" (VDict kwargs))).
      + set_solver.
      + unfold differs, changed_against in *. cbn.
        by destruct (TaskLog.inputs record !! "kwargs_"). }
  split; [done|]. apply run_calls_action. by rewrite Hcheck.
Qed.

(** X5: the snapshot of the positional arguments is stored as the tuple it
    is, and [_check] compares the list of its items with what is stored. So
    the record that a successful rerun has just filled in is found changed
    by the same task: run again against it, without the store in between,
    the task is rerun. *)
Theorem rerun_result_is_stale {World} (h : Task.Hooks World)
    (args : list pyval) (kwargs : gmap string pyval) (w0 w1 : World)
    (s : Task.state World) (r : TaskLog.t) (s' : Task.state World) (w : World) :
  Task.__init__ h args kwargs w0 = (Ok (Task.self s), w1) →
  Task._rerun s = (Ok r, s') →
  TaskLog.last_run_success r = VBool true →
  Task._check (Task.inputs (Task.self s')) (TaskLog.inputs r) = true ∧
  Task.Action ∈ Task.calls (Task.run (Task.self s') r w).2.
Proof.
  intros Hinit Hrerun Hlast.
  destruct (init_distinct_names _ _ _ _ _ _ Hinit) as [Hnd _].
  apply init_Ok in Hinit as (ins & Hinputs & _).
  apply _rerun_Ok in Hrerun
    as (rep & w1' & results & w2 & ok & ps & _ & _ & _ & _ & _ & _ & _ & _ & _
        & _ & Hok & Hupd).
  rewrite Hlast in Hok. injection Hok as <-.
  destruct Hupd as (Hins' & _ & Hstored & _).
  assert (Hcheck : Task._check (Task.inputs (Task.self s')) (TaskLog.inputs r)
                   = true).
  { set (p := Param.plain (World := World) "args_" (VTuple args)).
    assert (Hp : p ∈ Task.inputs (Task.self s)) by (rewrite Hinputs; set_solver).
    apply (_check_elem _ _ (Param._update (Task.world s') p)).
    - rewrite Hins'. by apply list_elem_of_fmap_2.
    - unfold differs. rewrite Hstored, Hins'. cbn [Param._update Param.name].
      change "args_"%string with (Param.name p).
      by rewrite snapshot_lookup. }
  split; [done|]. apply run_calls_action. by rewrite Hcheck.
Qed.

(** * More on values and the change check *)

(** Equality of two dictionaries, as [py_eq] computes it. *)
Lemma py_eq_VDict (d e : gmap string pyval) :
  py_eq (VDict d) (VDict e) = true ↔
  size d = size e ∧
  ∀ k x, d !! k = Some x → ∃ y, e !! k = Some y ∧ py_eq x y = true.
Proof.
  cbn [py_eq]. rewrite andb_true_iff, bool_decide_eq_true.
  rewrite (map_fold_and (λ k x, from_option (py_eq x) false (e !! k))).
  split; intros [Hsize Hall]; (split; [done|]); intros k x Hk.
  - specialize (Hall k x Hk). destruct (e !! k) as [y|]; [|done]. by exists y.
  - destruct (Hall k x Hk) as (y & -> & Hy). done.
Qed.

(** A value that is equal to one without tuples holds no tuple. *)
Lemma py_eq_tuple_free (v : pyval) :
  ∀ w, tuple_free w = true → py_eq v w = true → tuple_free v = true.
Proof.
  induction v as [|b|n|s|xs IH|xs IH|d IH] using pyval_nested_ind;
    intros w Hw Heq; try done.
  - destruct w as [| | | |ys| |]; try done. cbn in Hw, Heq |- *.
    revert ys Hw Heq.
    induction IH as [|x xs Hx _ IHxs]; intros [|y ys] Hw Heq; try done.
    cbn in Hw. apply andb_true_iff in Hw as [Hy Hys].
    apply andb_true_iff in Heq as [Hxy Hrest]. cbn.
    rewrite (Hx y Hy Hxy). by apply (IHxs ys).
  - destruct w as [| | | | |ys|]; done.
  - destruct w as [| | | | | |e]; try done.
    apply py_eq_VDict in Heq as [_ Hall].
    apply tuple_free_dict. intros k x Hk.
    destruct (Hall k x Hk) as (y & Hy & Hxy).
    apply (IH k x Hk y); [|done]. by eapply (proj1 (tuple_free_dict e)).
Qed.

Section check_facts.
Context {World : Type}.
Implicit Types (p : Param.t World) (ps qs : list (Param.t World))
  (old : gmap string pyval).

Lemma _check_app ps qs old :
  Task._check (ps ++ qs) old = Task._check ps old || Task._check qs old.
Proof.
  unfold Task._check. rewrite !_check_foldl. cbn.
  by rewrite existsb_app.
Qed.
End check_facts.

(** X6: the cache works through the store. After a successful rerun of a
    task whose refreshed snapshots, a tuple taken as the list of its items,
    are values that the store gives back as they are, the record as it
    comes back from the store is found unchanged by the same task: [_run]
    against it returns it as it is and calls no hook. *)
Theorem stored_record_is_skipped {World} (s : Task.state World) (r : TaskLog.t)
    (s' : Task.state World) (w : World) :
  Task._rerun s = (Ok r, s') →
  TaskLog.last_run_success r = VBool true →
  NoDup (Param.name <$> Task.inputs (Task.self s)) →
  NoDup (Param.name <$> Task.outputs (Task.self s)) →
  (∀ p, p ∈ Task.inputs (Task.self s) ++ Task.outputs (Task.self s) →
        kept_by_store (normalized (Param.refresh p (Task.world s')))) →
  ∃ s'', Task.run (Task.self s') (reloaded_record r) w
           = (Ok (reloaded_record r), s'') ∧
         Task.calls s'' = [].
Proof.
  intros Hrerun Hlast Hnd_in Hnd_out Hkept.
  apply _rerun_Ok in Hrerun
    as (rep & w1 & results & w2 & ok & ps & _ & _ & _ & _ & _ & _ & _ & _ & _
        & _ & Hok & Hupd).
  rewrite Hlast in Hok. injection Hok as <-.
  destruct Hupd as (Hins & Houts & Hstored_in & Hstored_out).
  assert (Hfresh : ∀ qs : list (Param.t World),
    NoDup (Param.name <$> qs) →
    (∀ p, p ∈ qs →
          kept_by_store (normalized (Param.refresh p (Task.world s')))) →
    Task._check (Param._update (Task.world s') <$> qs)
      (persisted <$> Task.snapshot (Param._update (Task.world s') <$> qs))
    = false).
  { intros qs Hnd Hqs. apply not_true_iff_false. intros Hcheck.
    apply _check_exists in Hcheck as (p' & Hp' & Hd).
    apply list_elem_of_fmap in Hp' as (p & -> & Hp).
    unfold differs in Hd. cbn [Param._update Param.name Param._log_value] in Hd.
    rewrite lookup_fmap, (snapshot_lookup _ _ _ Hnd Hp) in Hd. cbn in Hd.
    rewrite <- (persisted_normalized (Param.refresh p (Task.world s'))),
      (Hqs p Hp) in Hd.
    unfold py_ne, normalized in Hd. apply negb_true_iff in Hd.
    destruct (Param.refresh p (Task.world s')); by rewrite py_eq_refl in Hd. }
  unfold Task.run. rewrite _run_unfold. cbn zeta.
  cbn [Task.self Task.log Task.calls Task.world Task.stdout].
  unfold reloaded_record at 1 2 3.
  cbn [TaskLog.inputs TaskLog.outputs TaskLog.last_run_success].
  rewrite Hstored_in, Hstored_out, Hins, Houts, Hlast.
  rewrite !Hfresh; [|done|intros p Hp; apply Hkept; set_solver
                   |done|intros p Hp; apply Hkept; set_solver].
  cbn. by eexists.
Qed.

(** X7: a snapshot that holds a tuple below its top level never matches a
    stored value: a parameter with such a snapshot is reported changed
    against every prior mapping that was loaded from the store (whose values
    hold no tuple), so a task with such a parameter — one that was given a
    tuple as an argument, for one — is rerun on every run. *)
Theorem nested_tuple_always_changed {World} (ps : list (Param.t World))
    (old : gmap string pyval) (p : Param.t World) :
  p ∈ ps →
  shallow (Param._log_value p) = false →
  (∀ k o, old !! k = Some o → tuple_free o = true) →
  Task._check ps old = true.
Proof.
  intros Hp Hnested Hold. apply (_check_elem ps old p Hp).
  unfold differs. destruct (old !! Param.name p) as [o|] eqn:Hk; [|done].
  unfold py_ne. apply negb_true_iff, not_true_iff_false. intros Heq.
  apply py_eq_tuple_free in Heq; [|by eauto].
  destruct (Param._log_value p); cbn in *; congruence.
Qed.

(** X8: the edges of the change check. Without parameters nothing has
    changed; against an empty prior mapping every parameter has, so the
    answer is [True] as soon as there is one; and the answer for two lists
    of parameters in a row is the disjunction of the two answers. *)
Theorem check_empty_and_append {World} (ps qs : list (Param.t World))
    (old : gmap string pyval) :
  @Task._check World [] old = false ∧
  (Task._check ps ∅ = true ↔ ps ≠ []) ∧
  Task._check (ps ++ qs) old = Task._check ps old || Task._check qs old.
Proof.
  split_and!; [done| |apply _check_app].
  rewrite _check_exists. split.
  - intros (p & Hp & _) ->. by apply elem_of_nil in Hp.
  - destruct ps as [|p ps]; [done|]. intros _. exists p.
    split; [apply list_elem_of_here|]. unfold differs. by rewrite lookup_empty.
Qed.

(** * More on records *)

Lemma __dict___dom (x : TaskLog.t) : dom (TaskLog.__dict__ x) = TaskLog.fields.
Proof.
  unfold TaskLog.__dict__, TaskLog.fields.
  rewrite !dom_insert_L, dom_empty_L. set_solver.
Qed.

(** The attribute dictionary, attribute by attribute. *)
Lemma __dict___lookup (x : TaskLog.t) (k : string) (v : pyval) :
  TaskLog.__dict__ x !! k = Some v ↔
  k = "index" ∧ v = TaskLog.index x ∨
  k = "task_class" ∧ v = TaskLog.task_class x ∨
  k = "inputs" ∧ v = VDict (TaskLog.inputs x) ∨
  k = "outputs" ∧ v = VDict (TaskLog.outputs x) ∨
  k = "last_run_success" ∧ v = TaskLog.last_run_success x ∨
  k = "info" ∧ v = VDict (TaskLog.info x).
Proof.
  unfold TaskLog.__dict__. rewrite !lookup_insert_Some, lookup_empty.
  split.
  - intros H. repeat (destruct H as [[<- <-]|[_ H]]; [tauto|]). done.
  - intros H. repeat (destruct H as [[-> ->]|H]; [naive_solver|]).
    destruct H as [-> ->]. naive_solver.
Qed.

Lemma elem_of_fields (k : string) :
  k ∈ TaskLog.fields ↔ is_Some (TaskLog.__dict__ (TaskLog.new VNone VNone) !! k).
Proof. by rewrite <- elem_of_dom, __dict___dom. Qed.

(** X9: two records are equal exactly when their six attributes are, each
    compared as Python compares values (so a [last_run_success] of [True]
    equals one of [1], and an index in tuple form never equals one in list
    form); [__ne__] is the negation. *)
Theorem record_eq_fieldwise (x y : TaskLog.t) :
  (TaskLog.__eq__ x y = true ↔
     py_eq (TaskLog.index x) (TaskLog.index y) = true ∧
     py_eq (TaskLog.task_class x) (TaskLog.task_class y) = true ∧
     py_eq (VDict (TaskLog.inputs x)) (VDict (TaskLog.inputs y)) = true ∧
     py_eq (VDict (TaskLog.outputs x)) (VDict (TaskLog.outputs y)) = true ∧
     py_eq (TaskLog.last_run_success x) (TaskLog.last_run_success y) = true ∧
     py_eq (VDict (TaskLog.info x)) (VDict (TaskLog.info y)) = true) ∧
  (TaskLog.__ne__ x y = true ↔ TaskLog.__eq__ x y = false).
Proof.
  split; [|unfold TaskLog.__ne__; apply negb_true_iff].
  unfold TaskLog.__eq__. rewrite py_eq_VDict.
  rewrite <- !size_dom, !__dict___dom. split.
  - intros [_ Hall].
    assert (Hfield : ∀ k v, TaskLog.__dict__ x !! k = Some v →
      ∀ v', TaskLog.__dict__ y !! k = Some v' → py_eq v v' = true).
    { intros k v Hk v' Hk'. destruct (Hall k v Hk) as (y' & Hy' & Heq).
      congruence. }
    split_and!; (eapply Hfield; apply __dict___lookup); tauto.
  - intros (Hi & Hc & Hins & Houts & Hlast & Hinf). split; [done|].
    intros k v Hk. apply __dict___lookup in Hk.
    destruct Hk as [[-> ->]|[[-> ->]|[[-> ->]|[[-> ->]|[[-> ->]|[-> ->]]]]]];
      eexists; (split; [apply __dict___lookup; naive_solver|done]).
Qed.

Lemma __getitem___Raises (self : TaskLog.t) (e : exception) (sel : list string) :
  foldl (λ (acc : outcome (gmap string pyval)) key,
    match acc with
    | Raises e => Raises e
    | Returns d =>
        match TaskLog.__dict__ self !! key with
        | Some v => Returns (<[key := v]> d)
        | None => Raises (KeyError key)
        end
    end) (Raises e) sel = Raises e.
Proof. by induction sel. Qed.

(** The comprehension of [__getitem__], started from the dictionary [d]. *)
Lemma __getitem___from (self : TaskLog.t) (sel : list string)
    (d : gmap string pyval) :
  match foldl (λ (acc : outcome (gmap string pyval)) key,
    match acc with
    | Raises e => Raises e
    | Returns d =>
        match TaskLog.__dict__ self !! key with
        | Some v => Returns (<[key := v]> d)
        | None => Raises (KeyError key)
        end
    end) (Returns d) sel with
  | Returns d' =>
      Forall (λ k, k ∈ TaskLog.fields) sel ∧
      ∀ k, d' !! k = if bool_decide (k ∈ sel)
                     then TaskLog.__dict__ self !! k else (d !! k)
  | Raises e =>
      ∃ pre k post, sel = pre ++ k :: post ∧
        Forall (λ k, k ∈ TaskLog.fields) pre ∧ (k ∉ TaskLog.fields) ∧
        e = KeyError k
  end.
Proof.
  revert d. induction sel as [|key sel IH]; intros d.
  { cbn. split; [done|]. intros k.
    by rewrite bool_decide_eq_false_2 by apply not_elem_of_nil. }
  cbn [foldl]. destruct (TaskLog.__dict__ self !! key) as [v|] eqn:Hkey.
  - assert (Hin : key ∈ TaskLog.fields).
    { rewrite <- (__dict___dom self). by apply elem_of_dom. }
    specialize (IH (<[key := v]> d)).
    destruct (foldl _ _ sel) as [d'|e].
    + destruct IH as [Hall Hd']. split; [by constructor|].
      intros k. rewrite Hd'.
      destruct (decide (k ∈ sel)) as [Hk|Hk].
      * rewrite !bool_decide_eq_true_2;
          [done|by apply list_elem_of_further|done].
      * rewrite (bool_decide_eq_false_2 _ Hk).
        destruct (decide (k = key)) as [->|Hne].
        -- rewrite lookup_insert_eq, bool_decide_eq_true_2;
             [done|apply list_elem_of_here].
        -- rewrite lookup_insert_ne by done.
           rewrite bool_decide_eq_false_2; [done|].
           by intros [?|?]%elem_of_cons.
    + destruct IH as (pre & k & post & -> & Hpre & Hk & ->).
      exists (key :: pre), k, post. split_and!; [done|by constructor|done|done].
  - rewrite __getitem___Raises. exists [], key, sel.
    split_and!; [done|done| |done].
    rewrite <- (__dict___dom self). by apply not_elem_of_dom.
Qed.

(** X10: selecting attributes of a record. When every selected key is one
    of the six attributes, the answer holds exactly the selected keys, each
    with the attribute's value; otherwise a [KeyError] is raised, for the
    first selected key that is none. *)
Theorem record_getitem_selects (self : TaskLog.t) (selection : list string) :
  match TaskLog.__getitem__ self selection with
  | Returns d =>
      Forall (λ k, k ∈ TaskLog.fields) selection ∧
      ∀ k, d !! k = if bool_decide (k ∈ selection)
                    then TaskLog.__dict__ self !! k else None
  | Raises e =>
      ∃ pre k post, selection = pre ++ k :: post ∧
        Forall (λ k, k ∈ TaskLog.fields) pre ∧ (k ∉ TaskLog.fields) ∧
        e = KeyError k
  end.
Proof.
  pose proof (__getitem___from self selection ∅) as H.
  unfold TaskLog.__getitem__. destruct (foldl _ _ selection) as [d|e]; [|done].
  destruct H as [Hall Hd]. split; [done|]. intros k. rewrite Hd.
  by rewrite lookup_empty.
Qed.

Lemma mapping_Ok (v : option pyval) (d : gmap string pyval) :
  TaskLog.mapping v = Ok d ↔ v = Some (VDict d) ∨ v = None ∧ d = ∅.
Proof.
  destruct v as [[]|]; cbn; intuition congruence.
Qed.


(** * More on the log store *)

Lemma py_iter_tuple_free (v : pyval) (items : list pyval) :
  tuple_free v = true → py_iter v = Ok items →
  Forall (λ i, tuple_free i = true) items.
Proof.
  intros Hv Hiter. destruct v as [| | |s|xs|xs|d]; try done;
    injection Hiter as <-.
  - apply Forall_fmap, Forall_forall. by intros c _.
  - apply Forall_forall. intros x Hx. cbn in Hv.
    rewrite forallb_forall in Hv. by apply Hv, list_elem_of_In.
  - apply Forall_fmap, Forall_forall. by intros kv _.
Qed.

(** A record built from keywords without tuples holds no tuple. *)
Lemma _from_dict_tuple_free (v : pyval) (r : TaskLog.t) :
  tuple_free v = true → TaskLog._from_dict v = Ok r →
  record_tuple_free r = true.
Proof.
  intros Hv. unfold TaskLog._from_dict. destruct v as [| | | | | |kw]; try done.
  pose proof (proj1 (tuple_free_dict kw) Hv) as Hkw.
  destruct (negb _); [done|].
  destruct (kw !! "index") as [i|] eqn:Hi; [|done].
  destruct (kw !! "task_class") as [c|] eqn:Hc; [|done].
  destruct (TaskLog.mapping (kw !! "inputs")) as [ins|] eqn:Hins; [|done].
  destruct (TaskLog.mapping (kw !! "outputs")) as [outs|] eqn:Houts; [|done].
  destruct (TaskLog.mapping (kw !! "info")) as [inf|] eqn:Hinf; [|done].
  intros [= <-]. unfold record_tuple_free.
  cbn [TaskLog.index TaskLog.task_class TaskLog.inputs TaskLog.outputs
       TaskLog.last_run_success TaskLog.info].
  apply mapping_Ok in Hins, Houts, Hinf.
  assert (Hmap : ∀ k d, kw !! k = Some (VDict d) ∨ kw !! k = None ∧ d = ∅ →
                        tuple_free (VDict d) = true).
  { intros k d [Hk|[_ ->]]; [by eapply Hkw|done]. }
  rewrite (Hkw _ _ Hi), (Hkw _ _ Hc), (Hmap _ _ Hins), (Hmap _ _ Houts),
    (Hmap _ _ Hinf). cbn [andb].
  destruct (kw !! "last_run_success") as [l|] eqn:Hl; [|done].
  cbn. by rewrite (Hkw _ _ Hl).
Qed.

Lemma collect_cons_Ok {A B} (f : A → result B) (i : A) (L : list A)
    (ys : list B) :
  Log.collect f (i :: L) = Ok ys →
  ∃ y ys', ys = y :: ys' ∧ f i = Ok y ∧ Log.collect f L = Ok ys'.
Proof.
  cbn. destruct (f i) as [y|]; [|done].
  destruct (Log.collect f L) as [ys'|]; [|done].
  intros [= <-]. by eexists _, _.
Qed.

Lemma iterate_item_tuple_free (v : pyval) :
  ∀ n, tuple_free v = true →
       Log.iterate_item TaskLog._from_dict (Log.node_of v) = Ok n →
       ∀ r, r ∈ records n → record_tuple_free r = true.
Proof.
  induction v as [|b|k|s|xs IH|xs IH|d IH] using pyval_nested_ind;
    intros n Hv; try discriminate Hv;
    try (cbn [Log.node_of Log.iterate_item];
         destruct (TaskLog._from_dict _) as [r'|] eqn:Hr'; [|done];
         intros [= <-] r Hr; apply list_elem_of_singleton in Hr as ->;
         by eapply _from_dict_tuple_free).
  cbn [Log.node_of Log.iterate_item].
  destruct (Log.collect _ _) as [ys|] eqn:Hys; [|done]. intros [= <-].
  cbn [tuple_free] in Hv. revert ys Hys Hv.
  induction IH as [|x xs Hx _ IHxs]; intros ys Hys Hv r Hr.
  { injection Hys as <-. by apply elem_of_nil in Hr. }
  rewrite fmap_cons in Hys.
  apply collect_cons_Ok in Hys as (y & ys' & -> & Hy & Hys').
  cbn in Hv. apply andb_true_iff in Hv as [Hvx Hvxs].
  cbn [records fmap list_fmap mjoin list_join] in Hr.
  apply elem_of_app in Hr as [Hr|Hr]; [by eapply Hx|by eapply IHxs].
Qed.

(** The records of a log that was loaded hold no tuple. *)
Lemma _load_tuple_free (st : Log.t) (L : list (Log.rose TaskLog.t)) :
  Log._load st = Ok L →
  ∀ r, r ∈ records (Log.Seq L) → record_tuple_free r = true.
Proof.
  unfold Log._load. destruct (Log.file st) as [doc|].
  2: { intros [= <-] r Hr. by apply elem_of_nil in Hr. }
  cbn zeta. destruct (py_iter (json_load doc)) as [items|] eqn:Hitems; [|done].
  apply py_iter_tuple_free in Hitems; [|apply json_load_tuple_free].
  unfold Log._recursive_iterate_log. revert L.
  induction Hitems as [|v items Hv _ IH]; intros L HL r Hr.
  { injection HL as <-. by apply elem_of_nil in Hr. }
  rewrite fmap_cons in HL.
  apply collect_cons_Ok in HL as (n & L' & -> & Hn & HL').
  cbn [records fmap list_fmap mjoin list_join] in Hr.
  apply elem_of_app in Hr as [Hr|Hr];
    [by eapply iterate_item_tuple_free|by eapply IH].
Qed.

Lemma reloaded_loaded (st : Log.t) (L : list (Log.rose TaskLog.t)) :
  Log._load st = Ok L → reloaded <$> L = L.
Proof.
  intros Hload.
  pose proof (reloaded_tuple_free (Log.Seq L) (_load_tuple_free st L Hload))
    as Hsame.
  cbn [reloaded] in Hsame. by injection Hsame.
Qed.

(** X12: reading the log is stable. When the [log] property gives a log, it
    has left the file alone and holds the log, and reading it again gives
    the same log and changes nothing; when it raises, the object is as it
    was. *)
Theorem log_is_stable (self : Log.t) :
  match Log.log self with
  | (Ok L, self') =>
      Log.file self' = Log.file self ∧ Log._log self' = Some L ∧
      Log.log self' = (Ok L, self')
  | (Raise e, self') => self' = self
  end.
Proof.
  unfold Log.log at 1.
  destruct self as [file [[|i L]|]]; cbn [Log._log]; try done.
  all: destruct (Log._load _) as [L|e] eqn:Hload; [|done].
  all: cbn [Log.file Log._log]; split_and!; [done|done|].
  all: unfold Log.log; cbn [Log._log]; destruct L as [|i L]; [|done].
  all: unfold Log._load in *; cbn [Log.file] in *; by rewrite Hload.
Qed.

(** X13: an empty log cannot be put in the place of a stored one. Setting
    the empty list makes the store read its file again, so what is written,
    and kept as the log, is the log that was in the file. *)
Theorem set_log_empty_keeps_file (st : Log.t) (L : list (Log.rose TaskLog.t)) :
  Log._load st = Ok L →
  ∃ st', Log._set_log [] st = (Ok (), st') ∧
         Log._log st' = Some L ∧
         Log._load st' = Ok L.
Proof.
  intros Hload.
  assert (Hlog : Log.log (Log.mk (Log.file st) (Some []))
                 = (Ok L, Log.mk (Log.file st) (Some L))).
  { unfold Log.log. cbn [Log._log Log.file].
    by rewrite (_load_file st (Log.mk (Log.file st) (Some []))), Hload. }
  eexists. unfold Log._set_log. rewrite (_write_log _ _ _ Hlog).
  split_and!; [done|done|].
  cbn [Log._log]. rewrite _load_saved. f_equal. by eapply reloaded_loaded.
Qed.

(** X14: a log that came from the store is stored without loss. Written
    again with the store it was loaded with, it is loaded back as it is,
    every record the same in all its fields. *)
Theorem loaded_log_round_trips (st : Log.t) (L : list (Log.rose TaskLog.t)) :
  Log._load st = Ok L →
  ∃ st', Log._set_log L st = (Ok (), st') ∧
         Log._load (Log.new (Log.file st')) = Ok L.
Proof.
  intros Hload.
  assert (Hlog : Log.log (Log.mk (Log.file st) (Some L))
                 = (Ok L, Log.mk (Log.file st) (Some L))).
  { destruct L as [|i L]; [|done]. unfold Log.log. cbn [Log._log Log.file].
    by rewrite (_load_file st (Log.mk (Log.file st) (Some []))), Hload. }
  eexists. unfold Log._set_log. rewrite (_write_log _ _ _ Hlog).
  split; [done|]. unfold Log.new. cbn [Log.file].
  rewrite _load_saved. f_equal. by eapply reloaded_loaded.
Qed.

(** ** Walking a log *)

Lemma collect_app {A B} (f : A → result B) (xs ys : list A) :
  Log.collect f (xs ++ ys)
  = match Log.collect f xs with
    | Ok a => match Log.collect f ys with
              | Ok b => Ok (a ++ b)
              | Raise e => Raise e
              end
    | Raise e => Raise e
    end.
Proof.
  induction xs as [|x xs IH]; cbn.
  { by destruct (Log.collect f ys). }
  destruct (f x) as [y|]; [|done]. rewrite IH.
  destruct (Log.collect f xs); [|done]. by destruct (Log.collect f ys).
Qed.

Lemma collect_total {A B} (f : A → B) (L : list A) :
  Log.collect (λ a, Ok (f a)) L = Ok (f <$> L).
Proof. induction L as [|a L IH]; [done|]. cbn. by rewrite IH. Qed.

Lemma records_leaves (n : Log.rose TaskLog.t) : records n = leaves n.
Proof.
  induction n as [r|xs IH] using rose_nested_ind; [done|].
  cbn. f_equal. apply list_fmap_ext. intros i n Hn.
  by eapply Forall_lookup_1 in IH.
Qed.

Lemma collect_cons {A B} (f : A → result B) (i : A) (L : list A) :
  Log.collect f (i :: L)
  = match f i with
    | Raise e => Raise e
    | Ok y => match Log.collect f L with
              | Raise e => Raise e
              | Ok ys => Ok (y :: ys)
              end
    end.
Proof. done. Qed.

(** The leaves of what a walk gives are what [func] gives for the leaves,
    in their order; the walk raises what [func] raises first. *)
Lemma collect_iterate_leaves {A B} (func : A → result B)
    (xs : list (Log.rose A)) :
  Forall (λ n, match Log.iterate_item func n with
               | Ok n' => Log.collect func (leaves n) = Ok (leaves n')
               | Raise e => Log.collect func (leaves n) = Raise e
               end) xs →
  match Log.collect (Log.iterate_item func) xs with
  | Ok ys => Log.collect func (mjoin (leaves <$> xs)) = Ok (mjoin (leaves <$> ys))
  | Raise e => Log.collect func (mjoin (leaves <$> xs)) = Raise e
  end.
Proof.
  induction 1 as [|x xs Hx _ IH]; [done|].
  rewrite collect_cons, fmap_cons.
  change (mjoin (leaves x :: (leaves <$> xs)))
    with (leaves x ++ mjoin (leaves <$> xs)).
  rewrite collect_app.
  destruct (Log.iterate_item func x) as [x'|e]; rewrite Hx; [|done].
  destruct (Log.collect (Log.iterate_item func) xs) as [ys|e]; by rewrite IH.
Qed.

Lemma iterate_item_leaves {A B} (func : A → result B) (n : Log.rose A) :
  match Log.iterate_item func n with
  | Ok n' => Log.collect func (leaves n) = Ok (leaves n')
  | Raise e => Log.collect func (leaves n) = Raise e
  end.
Proof.
  induction n as [a|xs IH] using rose_nested_ind.
  - cbn. by destruct (func a).
  - cbn [Log.iterate_item leaves].
    pose proof (collect_iterate_leaves func xs IH) as Hxs.
    by destruct (Log.collect (Log.iterate_item func) xs).
Qed.

(** X15: walking a log keeps the order of its leaves. What
    [_recursive_iterate_log] gives has, as its leaves, what [func] gives for
    the leaves of the log, left to right; when [func] raises for some leaf,
    the walk raises what it raises for the first of them. *)
Theorem iterate_walks_in_order {A B} (func : A → result B)
    (L : list (Log.rose A)) :
  match Log._recursive_iterate_log L func with
  | Ok L' => Log.collect func (leaves (Log.Seq L)) = Ok (leaves (Log.Seq L'))
  | Raise e => Log.collect func (leaves (Log.Seq L)) = Raise e
  end.
Proof.
  unfold Log._recursive_iterate_log. cbn [leaves].
  apply collect_iterate_leaves, Forall_forall. intros n _.
  apply iterate_item_leaves.
Qed.

(** X16: [simple_tree] with its default formatter never raises for a log
    that can be read, and the leaves of the tree it gives are the task
    labels of the records of the log, left to right. *)
Theorem simple_tree_lists_task_classes (self : Log.t) :
  match Log.log self with
  | (Ok L, self') =>
      ∃ T, Log.simple_tree Log.task_class_formatter self = (Ok T, self') ∧
           leaves (Log.Seq T) = TaskLog.task_class <$> records (Log.Seq L)
  | (Raise e, self') =>
      Log.simple_tree Log.task_class_formatter self = (Raise e, self')
  end.
Proof.
  unfold Log.simple_tree. destruct (Log.log self) as [[L|e] self']; [|done].
  pose proof (iterate_item_leaves Log.task_class_formatter (Log.Seq L)) as H.
  cbn [Log.iterate_item] in H. unfold Log._recursive_iterate_log.
  unfold Log.task_class_formatter in H at 2 3.
  rewrite collect_total, <- records_leaves in H.
  destruct (Log.collect _ L) as [T|e]; [|done].
  exists T. split; [done|]. by injection H.
Qed.

(** * Flat views *)

Section flat.
Variable pretty_print_index : pyval → string → result string.

Lemma flatten_item_records (n : Log.rose TaskLog.t) :
  FlatView.flatten_item pretty_print_index n
  = Log.collect (TaskLog._to_dict pretty_print_index) (records n).
Proof.
  induction n as [r|xs IH] using rose_nested_ind.
  - cbn. by destruct (TaskLog._to_dict pretty_print_index r).
  - cbn [FlatView.flatten_item records].
    induction IH as [|x xs Hx _ IHxs]; [done|].
    rewrite collect_cons, fmap_cons.
    change (mjoin (records x :: (records <$> xs)))
      with (records x ++ mjoin (records <$> xs)).
    rewrite collect_app, <- Hx, <- IHxs.
    destruct (FlatView.flatten_item pretty_print_index x); [|done].
    by destruct (Log.collect _ xs).
Qed.

Lemma _flatten_log_records (L : list (Log.rose TaskLog.t)) :
  FlatView._flatten_log pretty_print_index L
  = Log.collect (TaskLog._to_dict pretty_print_index) (records (Log.Seq L)).
Proof. apply (flatten_item_records (Log.Seq L)). Qed.


(** A row of the table that is built from the pairs of the records [rs],
    on top of the table [d]. *)
Lemma table_from (rs : list TaskLog.t) :
  ∀ pairs (d : gmap string pyval) k,
    Log.collect (TaskLog._to_dict pretty_print_index) rs = Ok pairs →
    foldl (λ d (entry : string * gmap string pyval),
             <[entry.1 := VDict entry.2]> d) d pairs !! k
    = match last (filter (λ r, prints_as pretty_print_index k r = true) rs) with
      | Some r => Some (VDict (TaskLog.__dict__ r))
      | None => d !! k
      end.
Proof.
  induction rs as [|r rs IH]; intros pairs d k Hpairs.
  { by injection Hpairs as <-. }
  apply collect_cons_Ok in Hpairs as (y & pairs' & -> & Hy & Hpairs').
  cbn [foldl]. rewrite (IH _ _ _ Hpairs'). rewrite filter_cons.
  unfold TaskLog._to_dict in Hy.
  destruct (pretty_print_index (TaskLog.index r) "underscore") as [i|]
    eqn:Hprint; [|done].
  injection Hy as <-. cbn [fst snd].
  assert (Hi : prints_as pretty_print_index k r = bool_decide (i = k)).
  { unfold prints_as. by rewrite Hprint. }
  destruct (last (filter _ rs)) as [r'|] eqn:Hlast;
    destruct (decide (prints_as pretty_print_index k r = true)) as [Hik|Hik];
    rewrite ?last_cons, ?Hlast; try done.
  - rewrite Hi in Hik. apply bool_decide_eq_true in Hik as ->.
    by rewrite lookup_insert_eq.
  - rewrite lookup_insert_ne; [done|].
    intros ->. by rewrite Hi, bool_decide_eq_true_2 in Hik.
Qed.
End flat.

(** X17: flattening ignores the nesting. [_flatten_log] gives the pairs of
    the records of the log, left to right, whatever the groups they are in,
    and raises what printing an index raises first. *)
Theorem flatten_log_is_records
    (pretty_print_index : pyval → string → result string)
    (L : list (Log.rose TaskLog.t)) :
  FlatView._flatten_log pretty_print_index L
  = Log.collect (TaskLog._to_dict pretty_print_index) (records (Log.Seq L)).
Proof. apply _flatten_log_records. Qed.


(** X19: subscripting the view of a log. A printed index that some record
    has gives the view of the attributes of the last such record, over the
    same initial data; any other key is a [KeyError]. *)
Theorem flat_view_getitem (pretty_print_index : pyval → string → result string)
    (L : list (Log.rose TaskLog.t)) (selection : string) :
  match FlatView.flattened pretty_print_index L with
  | Ok view =>
      match FlatView.__getitem__ view selection with
      | Returns row_view =>
          ∃ r, last (filter
                       (λ r, prints_as pretty_print_index selection r = true)
                       (records (Log.Seq L))) = Some r ∧
               FlatView.log row_view = VDict (TaskLog.__dict__ r) ∧
               FlatView._initial row_view = FlatView._initial view
      | Raises e =>
          e = KeyError selection ∧
          filter (λ r, prints_as pretty_print_index selection r = true)
                 (records (Log.Seq L)) = []
      end
  | Raise _ => True
  end.
Proof.
  unfold FlatView.flattened. rewrite _flatten_log_records.
  destruct (Log.collect _ _) as [pairs|e] eqn:Hpairs; [|done].
  unfold FlatView.__getitem__, FlatView.make.
  cbn [FlatView.log FlatView._initial subscript truthy negb].
  unfold FlatView.table.
  rewrite (table_from _ _ _ _ selection Hpairs), lookup_empty.
  destruct (last _) as [r|] eqn:Hlast.
  - exists r. split_and!; [done|done|].
    cbn [FlatView.log FlatView._initial].
    assert (Hsize : size (FlatView.table pairs) ≠ 0%nat).
    { intros Hempty%map_size_empty_inv.
      pose proof (table_from pretty_print_index _ _ ∅ selection Hpairs) as Hk.
      fold (FlatView.table pairs) in Hk.
      rewrite Hempty, Hlast, lookup_empty in Hk. done. }
    fold (FlatView.table pairs).
    by rewrite (bool_decide_eq_false_2 _ Hsize).
  - split; [done|]. by apply last_None.
Qed.

(** X20: [cols] cuts the initial data, not the view it is called on: the
    view it returns has the same initial data, so another selection of
    columns from it is the selection from the first view. *)
Theorem cols_selects_from_initial (convert_return : pyval → result (list string))
    (first second : pyval) (self : FlatView.t) :
  match FlatView.cols convert_return first self with
  | Some view =>
      FlatView._initial view = FlatView._initial self ∧
      FlatView.cols convert_return second view
      = FlatView.cols convert_return second self
  | None => True
  end.
Proof.
  destruct (FlatView.cols convert_return first self) as [view|] eqn:Hview;
    [|done].
  assert (Hinit : FlatView._initial view = FlatView._initial self).
  { unfold FlatView.cols in Hview.
    destruct (convert_return first) as [names|]; [|done].
    destruct (FlatView._initial self) as [| | | | | |rows] eqn:Hrows; try done.
    case_bool_decide; [|done]. injection Hview as <-.
    unfold FlatView.make. cbn [FlatView._initial truthy].
    case_bool_decide as Hsize; [|done]. cbn [negb].
    apply map_size_empty_inv in Hsize as ->. by rewrite omap_empty. }
  split; [done|]. unfold FlatView.cols. by rewrite Hinit.
Qed.

(** X21: the flat view of a log object is built once. After [flat] has
    given a view, setting another log does not change what [flat] gives:
    the view is still that of the log as it was. *)
Theorem flat_is_built_once (pretty_print_index : pyval → string → result string)
    (self : LogObject.t) (new_log : list (Log.rose TaskLog.t)) :
  match LogObject.flat pretty_print_index self with
  | (Ok view, self') =>
      LogObject.flat pretty_print_index (LogObject._set_log new_log self').2
      = (Ok view, (LogObject._set_log new_log self').2)
  | (Raise e, self') => LogObject._flattened self' = None
  end.
Proof.
  assert (Hkept : ∀ (o : LogObject.t) view,
    LogObject._flattened o = Some view →
    LogObject.flat pretty_print_index (LogObject._set_log new_log o).2
    = (Ok view, (LogObject._set_log new_log o).2)).
  { intros o view Ho. unfold LogObject._set_log.
    destruct (Log._set_log new_log (LogObject.store o)) as [r st].
    unfold LogObject.flat. cbn [snd LogObject._flattened]. by rewrite Ho. }
  unfold LogObject.flat at 1.
  destruct (LogObject._flattened self) as [view|] eqn:Hflat; [by apply Hkept|].
  destruct (Log.log (LogObject.store self)) as [[L|e] st]; [|done].
  destruct (FlatView.flattened pretty_print_index L) as [view|e]; [|done].
  by apply Hkept.
Qed.

(** * What a run prints *)

Section run_trace.
Context {World : Type}.
Implicit Types (s : Task.state World) (ps : list (Param.t World)).

(** What a rerun prints. *)
Lemma _rerun_stdout s :
  match Task._rerun s with
  | (Ok r, s') =>
      ∃ ok, Task.stdout s'
            = Task.stdout s ++ ["rerunning Task..."; str_bool ok] ∧
            TaskLog.last_run_success r = VBool ok ∧
            Task.calls s'
            = Task.calls s ++ [Task.Action; Task.Success; Task.After]
  | (Raise e, s') =>
      Task.stdout s' = Task.stdout s ++ ["rerunning Task..."]
  end.
Proof.
  task_unfold.
  destruct (Task.action _ _) as [[rep|e1] w1]; task_cbn; [|done].
  destruct (Task.success _ _ _) as [[results|e1] w2]; task_cbn; [|done].
  destruct (py_all results) as [ok|e1]; task_cbn; [|done].
  destruct (Task.after _ _ _) as [[returned|e1] w3]; task_cbn; [|done].
  destruct (Task._process returned) as [info_paras|e1]; task_cbn; [|done].
  destruct ok; task_cbn; [exists true|exists false];
    rewrite <- !app_assoc; by split_and!.
Qed.
End run_trace.

(** X23: what [_run] prints tells what it did. The two lines with the
    answers of the change check come first, always. When the task is
    skipped nothing follows; when it is rerun, the line that announces the
    rerun follows, and then, unless the rerun raised, the success that the
    record holds from then on. *)
Theorem run_prints {World} (s : Task.state World) :
  match Task._run s with
  | (Ok r, s') =>
      Task.stdout s' = Task.stdout s ++ check_lines s ∧
      Task.calls s' = Task.calls s
      ∨ ∃ ok, Task.stdout s' = Task.stdout s ++ check_lines s
                                 ++ ["rerunning Task..."; str_bool ok] ∧
              TaskLog.last_run_success r = VBool ok ∧
              Task.calls s'
              = Task.calls s ++ [Task.Action; Task.Success; Task.After]
  | (Raise e, s') =>
      Task.stdout s' = Task.stdout s ++ check_lines s ++ ["rerunning Task..."]
  end.
Proof.
  rewrite _run_unfold. cbn zeta. destruct (_ || _ || _).
  - match goal with
    | |- context [Task._rerun ?s0] =>
        pose proof (_rerun_stdout s0) as H; destruct (Task._rerun s0) as [[r|e] s']
    end.
    + right. destruct H as (ok & Hout & Hlast & Hcalls). exists ok.
      rewrite Hout, Hcalls. cbn [Task.stdout Task.calls].
      unfold check_lines. by rewrite <- !app_assoc.
    + rewrite H. cbn [Task.stdout]. unfold check_lines.
      by rewrite <- !app_assoc.
  - left. cbn [Task.stdout Task.calls]. unfold check_lines.
    by rewrite <- !app_assoc.
Qed.

(** * More instances *)


(** The small task against a fresh record. *)
Lemma run_returns_settled_witness :
  let s := Task.mkstate 0%nat [] []
             (demo_task (demo_hooks (VList [VBool true]) report_after))
             (TaskLog.new (VTuple [VInt 0]) (VStr "Demo")) in
  let s' := (Task._run s).2 in
  let r := Task.log s' in
  r = Task.log s' ∧
  TaskLog.index r = TaskLog.index (Task.log s) ∧
  TaskLog.task_class r = TaskLog.task_class (Task.log s) ∧
  (∃ b, TaskLog.last_run_success r = VBool b) ∧
  (Task.calls s' = Task.calls s ∧ r = Task.log s
   ∨ Task.calls s' = Task.calls s ++ [Task.Action; Task.Success; Task.After]).
Proof.
  intros s s' r. apply (run_returns_settled s r s'). reflexivity.
Defined.

(** The small task rerun: the info mapping holds the report. *)
Lemma rerun_replaces_info_witness :
  let s := Task.mkstate 0%nat [] []
             (demo_task (demo_hooks (VList [VBool false]) report_after))
             (TaskLog.new (VTuple [VInt 0]) (VStr "Demo")) in
  let s' := (Task._rerun s).2 in
  ∃ rep w2 ps,
    Task.after (Task.hooks (Task.self s)) rep w2
      = (Ok (Task.RList ps), Task.world s') ∧
    refreshed (Task.world s') ps (TaskLog.info (Task.log s')).
Proof.
  intros s s'. apply (rerun_replaces_info s (Task.log s') s'). reflexivity.
Defined.

(** The small task against the record of a run with other arguments. *)
Lemma init_provenance_forces_rerun_witness :
  let h := demo_hooks (VList [VBool true]) report_after in
  Task._check (Task.inputs (demo_task h)) (TaskLog.inputs other_args_record)
    = true ∧
  Task.Action ∈ Task.calls (Task.run (demo_task h) other_args_record 0%nat).2.
Proof.
  intros h.
  apply (init_provenance_forces_rerun h [] ∅ 0%nat 0%nat (demo_task h)
           other_args_record 0%nat); [reflexivity|].
  right. left. reflexivity.
Defined.

(** The small task, rerun with success, against the record it has just
    filled in. *)
Lemma rerun_result_is_stale_witness :
  let h := demo_hooks (VList [VBool true]) report_after in
  let s := Task.mkstate 0%nat [] [] (demo_task h)
             (TaskLog.new (VTuple [VInt 0]) (VStr "Demo")) in
  let s' := (Task._rerun s).2 in
  Task._check (Task.inputs (Task.self s')) (TaskLog.inputs (Task.log s'))
    = true ∧
  Task.Action ∈ Task.calls (Task.run (Task.self s') (Task.log s') 1%nat).2.
Proof.
  intros h s s'.
  apply (rerun_result_is_stale h [] ∅ 0%nat 0%nat s (Task.log s') s' 1%nat);
    reflexivity.
Defined.

(** The same record after it went through the store. *)
Lemma stored_record_is_skipped_witness :
  let h := demo_hooks (VList [VBool true]) report_after in
  let s := Task.mkstate 0%nat [] [] (demo_task h)
             (TaskLog.new (VTuple [VInt 0]) (VStr "Demo")) in
  let s' := (Task._rerun s).2 in
  ∃ s'', Task.run (Task.self s') (reloaded_record (Task.log s')) 1%nat
           = (Ok (reloaded_record (Task.log s')), s'') ∧
         Task.calls s'' = [].
Proof.
  intros h s s'.
  apply (stored_record_is_skipped s (Task.log s') s' 1%nat);
    try reflexivity;
    try (apply (bool_decide_unpack _); vm_compute; exact I).
  intros p Hp. cbn in Hp.
  repeat (apply elem_of_cons in Hp as [->|Hp]; [reflexivity|]).
  by apply elem_of_nil in Hp.
Defined.

(** A list with a pair in it, against the list of lists that the store
    gives back for it. *)
Lemma nested_tuple_always_changed_witness :
  Task._check [pair_in_list]
    {["points" := VList [VList [VInt 1; VInt 2]]]} = true.
Proof.
  apply (nested_tuple_always_changed [pair_in_list] _ pair_in_list).
  - apply list_elem_of_here.
  - reflexivity.
  - intros k o Hk. apply lookup_singleton_Some in Hk as [_ <-]. reflexivity.
Defined.

(** The store of the small task, told to hold the empty log. *)
Lemma set_log_empty_keeps_file_witness :
  ∃ st', Log._set_log [] demo_store = (Ok (), st') ∧
         Log._log st' = Some [Log.Leaf demo_record] ∧
         Log._load st' = Ok [Log.Leaf demo_record].
Proof.
  apply (set_log_empty_keeps_file demo_store [Log.Leaf demo_record]).
  reflexivity.
Defined.

(** The log of that store, written again. *)
Lemma loaded_log_round_trips_witness :
  ∃ st', Log._set_log [Log.Leaf demo_record] demo_store = (Ok (), st') ∧
         Log._load (Log.new (Log.file st')) = Ok [Log.Leaf demo_record].
Proof.
  apply (loaded_log_round_trips demo_store [Log.Leaf demo_record]).
  reflexivity.
Defined.

